(** * NArySystem: an aggregate of N instances of one unit system

    Shallow embedding of [drake/systems/n_ary_system.h].

    The class template [NArySystem<UnitSystem>] keeps an ordered vector of
    shared pointers to unit systems and offers the Drake [System] concept
    itself: [dynamics] and [output] cut the composite state and input into
    per-unit slices, call the unit at each index and store what it returns at
    the same index of a freshly built composite vector.

    Modelling decisions.
    - C++ exceptions are an explicit outcome: a call [Returns] a value,
      [Throws] an exception or ends in a [Violation] (an index outside a
      container, which C++ leaves to the caller's contract).
    - Every call of a unit system's [dynamics] or [output] is recorded in a
      log next to the outcome, so that "which units were invoked, in which
      order and on which slices" is part of what a function computes.
    - [std::shared_ptr<UnitSystem>] is a reference to a unit system that the
      aggregate only reads (all its member functions but [addSystem] are
      [const], and the [System] concept's operations are [const] too), so the
      vector of pointers is the list of the unit systems themselves.
    - [std::size_t] and [std::ptrdiff_t] quantities are unbounded ([nat] for
      sizes and indices, [Z] for the signed count of a composite vector): a
      vector's size never reaches 2^63. *)

From Stdlib Require Import ZArith String List Floats Lia.
From stdpp Require Import base list.

Set Warnings "-notation-for-abbreviation".

(** ** Outcomes and the call log *)

Section Aggregate.

(** [Scalar] is the [ScalarType] template argument of [dynamics] and [output];
    [StateV], [InputV] and [OutputV] are [UnitSystem::StateVector<ScalarType>],
    [UnitSystem::InputVector<ScalarType>] and
    [UnitSystem::OutputVector<ScalarType>]; [E] is whatever else a unit system
    may throw; [UnitSystem] is the class template's argument. *)
Context {Scalar StateV InputV OutputV E UnitSystem : Type}.

Inductive exception : Type :=
| invalid_argument (what : string)
| other_exception (e : E).

Inductive outcome (A : Type) : Type :=
| Returns (a : A)
| Throws (e : exception)
| Violation.

Arguments Returns {A} a.
Arguments Throws {A} e.
Arguments Violation {A}.

(** One entry of the log: the unit [system] was asked for its dynamics (its
    output) at [time] on the slices [x] and [u]. *)
Inductive invocation : Type :=
| dynamics_of (system : UnitSystem) (time : Scalar) (x : StateV) (u : InputV)
| output_of (system : UnitSystem) (time : Scalar) (x : StateV) (u : InputV).

Definition M (A : Type) : Type := (outcome A * list invocation)%type.

Definition ret {A} (a : A) : M A := (Returns a, []).

Definition throw {A} (e : exception) : M A := (Throws e, []).

Definition lift {A} (o : outcome A) : M A := (o, []).

Definition invoke {A} (call : invocation) (o : outcome A) : M A := (o, [call]).

Definition bind {A B} (m : M A) (k : A -> M B) : M B :=
  match m with
  | (Returns a, log) => let (o, log') := k a in (o, log ++ log')
  | (Throws e, log) => (Throws e, log)
  | (Violation, log) => (Violation, log)
  end.

Notation "x <- m ;; k" := (bind m (fun x => k))
  (at level 100, m at next level, right associativity).

(** [for (std::size_t i = start; i < start + steps; ++i) body], threading the
    object the body updates. *)
Fixpoint for_range {S} (i steps : nat) (body : nat -> S -> M S) (s : S) : M S :=
  match steps with
  | O => ret s
  | Datatypes.S k => s' <- body i s ;; for_range (Datatypes.S i) k body s'
  end.

(** [v[i]] on a [std::vector]: defined inside the vector only. *)
Definition at_index {A} (v : list A) (i : nat) : outcome A :=
  match v !! i with
  | Some a => Returns a
  | None => Violation
  end.

(** ** The composite vector *)

(** Modelled from the spec: the header [drake/systems/n_ary_state.h] with the
    class template [NAryState] is missing. What a per-unit vector type must
    tell the composite vector: its fixed number of rows, and the value a
    freshly allocated slot holds. *)
Class UnitVector (V : Type) : Type := {
  unit_rows : nat;
  unit_default : V
}.

(** Modelled from the spec: [NAryState] is missing. A composite vector is
    either the ordered sequence of its per-unit values, whose length is its
    count, or unsized: built from a concatenated buffer, seen here as the
    slices the buffer falls into, and reporting a negative count. *)
Inductive NAryState (V : Type) : Type :=
| Sized (units : list V)
| Unsized (slices : list V).

Arguments Sized {V} units.
Arguments Unsized {V} slices.

Definition slots {V} (v : NAryState V) : list V :=
  match v with
  | Sized units => units
  | Unsized slices => slices
  end.

(** Modelled from the spec: [NAryState::NAryState(count)] is missing; it
    allocates [n] default-valued per-unit slots. *)
Definition NAryState_sized {V} `{UnitVector V} (n : nat) : NAryState V :=
  Sized (replicate n unit_default).

(** Modelled from the spec: [NAryState::count] is missing; the unit count,
    negative when it is not known. *)
Definition count {V} (v : NAryState V) : Z :=
  match v with
  | Sized units => Z.of_nat (length units)
  | Unsized _ => (-1)%Z
  end.

(** Modelled from the spec: [NAryState::get] is missing; the per-unit vector
    at index [i], a contract violation outside the stored slots. *)
Definition get {V} (v : NAryState V) (i : nat) : outcome V :=
  at_index (slots v) i.

(** Modelled from the spec: [NAryState::set] is missing; replaces the
    per-unit vector at index [i], a contract violation outside the stored
    slots. The C++ object is updated in place; here the updated vector is
    returned. *)
Definition set {V} (v : NAryState V) (i : nat) (unit : V) : outcome (NAryState V) :=
  if decide (i < length (slots v)) then
    Returns match v with
            | Sized units => Sized (<[i := unit]> units)
            | Unsized slices => Unsized (<[i := unit]> slices)
            end
  else Violation.

(** Modelled from the spec: [NAryState::rowsFromUnitCount] is missing; [n]
    units of the per-unit type's fixed dimension. *)
Definition rowsFromUnitCount (V : Type) `{UnitVector V} (n : nat) : nat :=
  n * unit_rows.

(** ** The unit system *)

(** The operations [NArySystem] uses of its template argument [UnitSystem]
    (the Drake [System] concept). *)
Class System (Sys : Type) : Type := {
  unit_dynamics : Sys -> Scalar -> StateV -> InputV -> outcome StateV;
  unit_output : Sys -> Scalar -> StateV -> InputV -> outcome OutputV;
  unit_isTimeVarying : Sys -> bool;
  unit_isDirectFeedthrough : Sys -> bool
}.

(** ** The aggregate *)

Context {unit_system : System UnitSystem}.
Context {state_vector : UnitVector StateV} {input_vector : UnitVector InputV}
  {output_vector : UnitVector OutputV}.

Record NArySystem : Type := { systems_ : list UnitSystem }.

(** [NArySystem() {}] *)
Definition NArySystem_new : NArySystem := {| systems_ := [] |}.

(** [systems_.push_back(system)] *)
Definition addSystem (self : NArySystem) (system : UnitSystem) : NArySystem :=
  {| systems_ := systems_ self ++ [system] |}.

Definition state_count_message : string :=
  "State count differs from systems count."%string.

Definition input_count_message : string :=
  "Input count differs from systems count."%string.

(** [(v.count() >= 0) && (v.count() != systems_.size())] *)
Definition count_differs {V} (v : NAryState V) (size : nat) : bool :=
  (0 <=? count v)%Z && negb (count v =? Z.of_nat size)%Z.

(** [NArySystem::dynamics]: the two count checks, then the loop that fills
    [xdot]. C++ leaves open which of [state.get(i)] and [input.get(i)] is
    evaluated first; neither leaves an entry in the log and both can only end
    in the same [Violation], so the order chosen here cannot be told apart. *)
Definition dynamics (self : NArySystem) (time : Scalar)
    (state : NAryState StateV) (input : NAryState InputV) : M (NAryState StateV) :=
  let size := length (systems_ self) in
  if count_differs state size then
    throw (invalid_argument state_count_message)
  else if count_differs input size then
    throw (invalid_argument input_count_message)
  else
    let xdot := NAryState_sized size in
    for_range 0 size (fun i xdot =>
      system <- lift (at_index (systems_ self) i) ;;
      x <- lift (get state i) ;;
      u <- lift (get input i) ;;
      unit_xdot <- invoke (dynamics_of system time x u) (unit_dynamics system time x u) ;;
      lift (set xdot i unit_xdot)) xdot.

(** [NArySystem::output]: the same checks, then the loop that fills [y] with
    each unit's output. *)
Definition output (self : NArySystem) (time : Scalar)
    (state : NAryState StateV) (input : NAryState InputV) : M (NAryState OutputV) :=
  let size := length (systems_ self) in
  if count_differs state size then
    throw (invalid_argument state_count_message)
  else if count_differs input size then
    throw (invalid_argument input_count_message)
  else
    let y := NAryState_sized size in
    for_range 0 size (fun i y =>
      system <- lift (at_index (systems_ self) i) ;;
      x <- lift (get state i) ;;
      u <- lift (get input i) ;;
      unit_y <- invoke (output_of system time x u) (unit_output system time x u) ;;
      lift (set y i unit_y)) y.

(** [(systems_.size() > 0) && (systems_[0]->isTimeVarying())]: the second
    operand is evaluated only when the first holds. *)
Definition isTimeVarying (self : NArySystem) : outcome bool :=
  if (0 <? length (systems_ self))%nat then
    match at_index (systems_ self) 0 with
    | Returns system => Returns (unit_isTimeVarying system)
    | Throws e => Throws e
    | Violation => Violation
    end
  else Returns false.

(** [(systems_.size() > 0) && (systems_[0]->isDirectFeedthrough())] *)
Definition isDirectFeedthrough (self : NArySystem) : outcome bool :=
  if (0 <? length (systems_ self))%nat then
    match at_index (systems_ self) 0 with
    | Returns system => Returns (unit_isDirectFeedthrough system)
    | Throws e => Throws e
    | Violation => Violation
    end
  else Returns false.

(** [StateVector<double>::rowsFromUnitCount(systems_.size())], of the composite
    vector over the unit system's own vector type. *)
#[using="unit_system"] Definition getNumStates (self : NArySystem) : nat :=
  rowsFromUnitCount StateV (length (systems_ self)).

(** [InputVector<double>::rowsFromUnitCount(systems_.size())], of the composite
    vector over the unit system's own vector type. *)
#[using="unit_system"] Definition getNumInputs (self : NArySystem) : nat :=
  rowsFromUnitCount InputV (length (systems_ self)).

(** [OutputVector<double>::rowsFromUnitCount(systems_.size())], of the composite
    vector over the unit system's own vector type. *)
#[using="unit_system"] Definition getNumOutputs (self : NArySystem) : nat :=
  rowsFromUnitCount OutputV (length (systems_ self)).

(** ** The loop, index by index

    What one turn of the loop of [dynamics] (of [output]) computes before it
    stores it: the unit at index [i] applied to the slices at index [i]. The
    unit's operation [op] and the log entry [entry] are the two places where
    the loops differ. *)
Definition unit_at {V} (op : UnitSystem -> Scalar -> StateV -> InputV -> outcome V)
    (entry : UnitSystem -> Scalar -> StateV -> InputV -> invocation)
    (self : NArySystem) (time : Scalar)
    (state : NAryState StateV) (input : NAryState InputV) (i : nat) : M V :=
  system <- lift (at_index (systems_ self) i) ;;
  x <- lift (get state i) ;;
  u <- lift (get input i) ;;
  invoke (entry system time x u) (op system time x u).

(** The values of [steps] consecutive turns from index [i] on, as a list; it
    stops at the first turn that does not return. *)
Fixpoint collect {V} (turn : nat -> M V) (i steps : nat) : M (list V) :=
  match steps with
  | O => ret []
  | Datatypes.S k => v <- turn i ;; vs <- collect turn (Datatypes.S i) k ;; ret (v :: vs)
  end.

(** The loop as a whole: the values of all turns, as a sized composite
    vector. *)
Definition per_index {V} (op : UnitSystem -> Scalar -> StateV -> InputV -> outcome V)
    (entry : UnitSystem -> Scalar -> StateV -> InputV -> invocation)
    (self : NArySystem) (time : Scalar)
    (state : NAryState StateV) (input : NAryState InputV) : M (NAryState V) :=
  vs <- collect (unit_at op entry self time state input) 0 (length (systems_ self)) ;;
  ret (Sized vs).

(** A turn that returns leaves one entry in the log, any other turn at most
    one: the entries then sit in the log at the index of their turn. *)
Definition one_entry_per_turn {V} (turn : nat -> M V) : Prop :=
  forall j, length (snd (turn j)) <= 1 /\
    forall v, fst (turn j) = Returns v -> length (snd (turn j)) = 1.

(** A composite vector passes the count check of an aggregate of [size]
    units. *)
Definition count_accepted {V} (v : NAryState V) (size : nat) : Prop :=
  (count v < 0)%Z \/ count v = Z.of_nat size.

(** [v.count()] is known and is not the number of unit systems. *)
Definition count_rejected {V} (v : NAryState V) (size : nat) : Prop :=
  (0 <= count v)%Z /\ count v <> Z.of_nat size.

(** A call fails with [std::invalid_argument(what)] before any unit system
    has been invoked. *)
Definition shape_mismatch {A} (m : M A) (what : string) : Prop :=
  m = (Throws (invalid_argument what), []).

(** What the two count checks in front of the loop amount to, for a call [m]
    on [state] and [input] of an aggregate of [size] units whose loop is
    [loop]: [m] fails with a shape mismatch exactly when a known count
    differs; the message is the state's exactly when the state's count
    differs, and the input's exactly when the state's count passes and the
    input's differs; a negative count never fails its check; and when both
    counts pass, [m] is the loop. *)
Definition count_checks_then {A} (m loop : M A) {V W}
    (state : NAryState V) (input : NAryState W) (size : nat) : Prop :=
  ((exists what, shape_mismatch m what) <->
     count_rejected state size \/ count_rejected input size) /\
  (shape_mismatch m state_count_message <-> count_rejected state size) /\
  (shape_mismatch m input_count_message <->
     ~ count_rejected state size /\ count_rejected input size) /\
  ((count state < 0)%Z -> ~ shape_mismatch m state_count_message) /\
  ((count input < 0)%Z -> ~ shape_mismatch m input_count_message) /\
  (count_accepted state size -> count_accepted input size -> m = loop).

(** Every turn of the loop over the units of [self] returns: both slices are
    there and the unit's operation returns a value. *)
Definition units_return {V} (op : UnitSystem -> Scalar -> StateV -> InputV -> outcome V)
    (self : NArySystem) (time : Scalar)
    (state : NAryState StateV) (input : NAryState InputV) : Prop :=
  forall i system, systems_ self !! i = Some system ->
    exists x u d, get state i = Returns x /\ get input i = Returns u /\
      op system time x u = Returns d.

(** ** The aggregate as an object

    The member functions once more, as operations on the object they are
    called on: an operation gets the aggregate as it is and gives back, next
    to its outcome and log, the aggregate as it leaves it; here every read of
    [systems_] and the one write to it are explicit. An operation gives
    nothing when the turns allowed to its loop run out. *)
Definition Method (A : Type) : Type := NArySystem -> option (M A * NArySystem).

Definition method_lift {A} (m : M A) : Method A := fun self => Some (m, self).

Definition method_ret {A} (a : A) : Method A := method_lift (ret a).

Definition method_throw {A} (e : exception) : Method A := method_lift (throw e).

Definition method_bind {A B} (m : Method A) (k : A -> Method B) : Method B :=
  fun self =>
    match m self with
    | None => None
    | Some ((Returns a, log), self') =>
        match k a self' with
        | None => None
        | Some ((o, log'), self'') => Some ((o, log ++ log'), self'')
        end
    | Some ((Throws e, log), self') => Some ((Throws e, log), self')
    | Some ((Violation, log), self') => Some ((Violation, log), self')
    end.

Notation "x <~ m ;; k" := (method_bind m (fun x => k))
  (at level 100, m at next level, right associativity).

(** [systems_.size()] *)
Definition systems_size : Method nat :=
  fun self => Some (ret (length (systems_ self)), self).

(** [systems_[i]] *)
Definition systems_at (i : nat) : Method UnitSystem :=
  fun self => Some (lift (at_index (systems_ self) i), self).

(** [systems_.push_back(system)] *)
Definition systems_push_back (system : UnitSystem) : Method unit :=
  fun self => Some (ret tt, {| systems_ := systems_ self ++ [system] |}).

(** [for (std::size_t i = start; i < systems_.size(); ++i) body]: the size is
    read again before every turn; [fuel] is the number of times the
    condition may be evaluated. *)
Fixpoint for_systems {S} (fuel i : nat) (body : nat -> S -> Method S) (s : S) : Method S :=
  match fuel with
  | O => fun _ => None
  | Datatypes.S fuel' =>
      size <~ systems_size ;;
      if (i <? size)%nat then
        s' <~ body i s ;; for_systems fuel' (Datatypes.S i) body s'
      else method_ret s
  end.

(** [NArySystem::addSystem] on the object. *)
Definition addSystem_method (system : UnitSystem) : Method unit :=
  systems_push_back system.

(** [NArySystem::dynamics] on the object: [systems_.size()] is read at each
    check and before every turn of the loop, [systems_[i]] in every turn. *)
Definition dynamics_method (fuel : nat) (time : Scalar)
    (state : NAryState StateV) (input : NAryState InputV) : Method (NAryState StateV) :=
  size <~ systems_size ;;
  if count_differs state size then
    method_throw (invalid_argument state_count_message)
  else
    size <~ systems_size ;;
    if count_differs input size then
      method_throw (invalid_argument input_count_message)
    else
      size <~ systems_size ;;
      let xdot := NAryState_sized size in
      for_systems fuel 0 (fun i xdot =>
        system <~ systems_at i ;;
        x <~ method_lift (lift (get state i)) ;;
        u <~ method_lift (lift (get input i)) ;;
        unit_xdot <~ method_lift
          (invoke (dynamics_of system time x u) (unit_dynamics system time x u)) ;;
        method_lift (lift (set xdot i unit_xdot))) xdot.

(** [NArySystem::output] on the object. *)
Definition output_method (fuel : nat) (time : Scalar)
    (state : NAryState StateV) (input : NAryState InputV) : Method (NAryState OutputV) :=
  size <~ systems_size ;;
  if count_differs state size then
    method_throw (invalid_argument state_count_message)
  else
    size <~ systems_size ;;
    if count_differs input size then
      method_throw (invalid_argument input_count_message)
    else
      size <~ systems_size ;;
      let y := NAryState_sized size in
      for_systems fuel 0 (fun i y =>
        system <~ systems_at i ;;
        x <~ method_lift (lift (get state i)) ;;
        u <~ method_lift (lift (get input i)) ;;
        unit_y <~ method_lift
          (invoke (output_of system time x u) (unit_output system time x u)) ;;
        method_lift (lift (set y i unit_y))) y.

(** [NArySystem::isTimeVarying] on the object. *)
Definition isTimeVarying_method : Method bool :=
  size <~ systems_size ;;
  if (0 <? size)%nat then
    system <~ systems_at 0 ;; method_ret (unit_isTimeVarying system)
  else method_ret false.

(** [NArySystem::isDirectFeedthrough] on the object. *)
Definition isDirectFeedthrough_method : Method bool :=
  size <~ systems_size ;;
  if (0 <? size)%nat then
    system <~ systems_at 0 ;; method_ret (unit_isDirectFeedthrough system)
  else method_ret false.

(** [NArySystem::getNumStates], [getNumInputs] and [getNumOutputs] on the
    object. *)
#[using="unit_system"] Definition getNumStates_method : Method nat :=
  size <~ systems_size ;; method_ret (rowsFromUnitCount StateV size).

#[using="unit_system"] Definition getNumInputs_method : Method nat :=
  size <~ systems_size ;; method_ret (rowsFromUnitCount InputV size).

#[using="unit_system"] Definition getNumOutputs_method : Method nat :=
  size <~ systems_size ;; method_ret (rowsFromUnitCount OutputV size).

(** A caller's calls, one after the other on the same object, each with what
    it got back; a call that throws is caught by the caller, who goes on. *)
Inductive request : Type :=
| call_addSystem (system : UnitSystem)
| call_dynamics (time : Scalar) (state : NAryState StateV) (input : NAryState InputV)
| call_output (time : Scalar) (state : NAryState StateV) (input : NAryState InputV)
| call_isTimeVarying
| call_isDirectFeedthrough
| call_getNumStates
| call_getNumInputs
| call_getNumOutputs.

Inductive reply : Type :=
| reply_void
| reply_state (r : M (NAryState StateV))
| reply_output (r : M (NAryState OutputV))
| reply_flag (r : M bool)
| reply_rows (r : M nat).

(** One call of the caller: the member function is run on the object and
    its outcome and log become the reply. *)
Definition replying {A} (wrap : M A -> reply) (m : Method A)
    (self : NArySystem) : option (reply * NArySystem) :=
  match m self with
  | Some (r, self') => Some (wrap r, self')
  | None => None
  end.

(** The member function a request stands for. *)
Definition perform (fuel : nat) (q : request) : NArySystem -> option (reply * NArySystem) :=
  match q with
  | call_addSystem system => replying (fun _ => reply_void) (addSystem_method system)
  | call_dynamics time state input =>
      replying reply_state (dynamics_method fuel time state input)
  | call_output time state input =>
      replying reply_output (output_method fuel time state input)
  | call_isTimeVarying => replying reply_flag isTimeVarying_method
  | call_isDirectFeedthrough => replying reply_flag isDirectFeedthrough_method
  | call_getNumStates => replying reply_rows getNumStates_method
  | call_getNumInputs => replying reply_rows getNumInputs_method
  | call_getNumOutputs => replying reply_rows getNumOutputs_method
  end.

(** The requests of a list in order, each on the object as the one before
    left it. *)
Fixpoint perform_all (fuel : nat) (qs : list request) (self : NArySystem)
    : option (list reply * NArySystem) :=
  match qs with
  | [] => Some ([], self)
  | q :: qs' =>
      match perform fuel q self with
      | None => None
      | Some (r, self') =>
          match perform_all fuel qs' self' with
          | None => None
          | Some (rs, final) => Some (r :: rs, final)
          end
      end
  end.

(** What the aggregate [self], as a value, answers to a request. *)
Definition answer (self : NArySystem) (q : request) : reply :=
  match q with
  | call_addSystem _ => reply_void
  | call_dynamics time state input => reply_state (dynamics self time state input)
  | call_output time state input => reply_output (output self time state input)
  | call_isTimeVarying => reply_flag (lift (isTimeVarying self))
  | call_isDirectFeedthrough => reply_flag (lift (isDirectFeedthrough self))
  | call_getNumStates => reply_rows (ret (getNumStates self))
  | call_getNumInputs => reply_rows (ret (getNumInputs self))
  | call_getNumOutputs => reply_rows (ret (getNumOutputs self))
  end.

(** The unit systems a sequence of requests registers, in order. *)
Definition registered (qs : list request) : list UnitSystem :=
  flat_map (fun q => match q with call_addSystem system => [system] | _ => [] end) qs.

End Aggregate.

Arguments Returns {E A} a.
Arguments Throws {E A} e.
Arguments Violation {E A}.
Arguments Sized {V} units.
Arguments Unsized {V} slices.

Notation "x <- m ;; k" := (bind m (fun x => k))
  (at level 100, m at next level, right associativity).

Notation "x <~ m ;; k" := (method_bind m (fun x => k))
  (at level 100, m at next level, right associativity).

(** ** Unit systems to run the aggregate on *)

(** Modelled from the spec: the unit system of the scenario is missing. One
    state, one input and one output over double precision numbers, with the
    dynamics x' = -x + u; the scenario does not say what the output is, it is
    the state here. *)
Inductive Decay : Type := decay.

#[global] Instance Decay_System : @System float float float float Empty_set Decay := {|
  unit_dynamics _ _ x u := Returns (- x + u)%float;
  unit_output _ _ x _ := Returns x;
  unit_isTimeVarying _ := false;
  unit_isDirectFeedthrough _ := false
|}.

#[global] Instance float_UnitVector : UnitVector float := {|
  unit_rows := 1;
  unit_default := 0%float
|}.

(** A unit system over the integers that refuses a state beyond its range:
    x' = u - x and y = x (y = x + u with feedthrough) inside the range, an
    exception that carries the state outside of it. *)
Record Bounded : Type := {
  range : Z;
  varying : bool;
  feedthrough : bool
}.

#[global] Instance Bounded_System : @System Z Z Z Z Z Bounded := {|
  unit_dynamics b _ x u :=
    if (Z.abs x <=? range b)%Z then Returns (u - x)%Z
    else Throws (other_exception x);
  unit_output b _ x u :=
    if (Z.abs x <=? range b)%Z then Returns (if feedthrough b then x + u else x)%Z
    else Throws (other_exception x);
  unit_isTimeVarying := varying;
  unit_isDirectFeedthrough := feedthrough
|}.

#[global] Instance Z_UnitVector : UnitVector Z := {|
  unit_rows := 1;
  unit_default := 0%Z
|}.

Definition narrow : Bounded := {| range := 10; varying := false; feedthrough := false |}.

Definition wide : Bounded := {| range := 1000; varying := true; feedthrough := true |}.

(** [addSystem(narrow); addSystem(wide)] on a new aggregate. *)
Definition narrow_wide : @NArySystem Bounded :=
  addSystem (addSystem NArySystem_new narrow) wide.

(** [narrow_wide] with [narrow] registered once more. *)
Definition narrow_wide_narrow : @NArySystem Bounded :=
  fold_left addSystem [narrow] narrow_wide.

(** * Properties *)

Section Theory.

Context {Scalar StateV InputV OutputV E UnitSystem : Type}.
Context `{!@System Scalar StateV InputV OutputV E UnitSystem}.
Context `{!UnitVector StateV} `{!UnitVector InputV} `{!UnitVector OutputV}.

Local Notation M := (@M Scalar StateV InputV E UnitSystem).
Local Notation Method := (@Method Scalar StateV InputV E UnitSystem).
Local Notation outcome := (@outcome E).
Local Notation get := (get (E := E)).
Local Notation set := (set (E := E)).
Local Notation op_type V := (UnitSystem -> Scalar -> StateV -> InputV -> outcome V).
Local Notation entry_type :=
  (UnitSystem -> Scalar -> StateV -> InputV -> @invocation Scalar StateV InputV UnitSystem).

(** ** Sequencing *)

Lemma bind_assoc {A B C} (m : M A) (f : A -> M B) (g : B -> M C) :
  bind (bind m f) g = bind m (fun a => bind (f a) g).
Proof.
  destruct m as [[a | e |] log]; simpl; try reflexivity.
  destruct (f a) as [[b | e |] log1]; simpl; try reflexivity.
  destruct (g b) as [o log2]. by rewrite app_assoc.
Qed.

Lemma bind_lift_Returns {A B} (a : A) (k : A -> M B) :
  bind (lift (Returns a)) k = k a.
Proof. unfold lift; simpl. by destruct (k a). Qed.

Lemma bind_ret {A B} (a : A) (k : A -> M B) : bind (ret a) k = k a.
Proof. apply bind_lift_Returns. Qed.

Lemma bind_ext {A B} (m : M A) (f g : A -> M B) :
  (forall a, f a = g a) -> bind m f = bind m g.
Proof. intros Hfg. destruct m as [[a | e |] log]; simpl; by rewrite ?Hfg. Qed.

Lemma fst_bind_Returns {A B} (m : M A) (k : A -> M B) (b : B) :
  fst (bind m k) = Returns b <->
  exists a, fst m = Returns a /\ fst (k a) = Returns b.
Proof.
  destruct m as [[a | e |] log]; simpl.
  - destruct (k a) as [o log'] eqn:Hk; simpl. split.
    + intros ->. exists a. by rewrite Hk.
    + intros (a' & [= <-] & Hb). by rewrite Hk in Hb.
  - split; [done | by intros (? & ? & _)].
  - split; [done | by intros (? & ? & _)].
Qed.

(** The outcome and the log of a sequence, by the outcome of its first part. *)
Lemma fst_bind {A B} (m : M A) (k : A -> M B) :
  fst (bind m k) =
  match fst m with
  | Returns a => fst (k a)
  | Throws e => Throws e
  | Violation => Violation
  end.
Proof. destruct m as [[a | e |] log]; simpl; try done. by destruct (k a). Qed.

Lemma snd_bind {A B} (m : M A) (k : A -> M B) :
  snd (bind m k) =
  snd m ++ match fst m with
           | Returns a => snd (k a)
           | _ => []
           end.
Proof.
  destruct m as [[a | e |] log]; simpl; rewrite ?app_nil_r; try done.
  by destruct (k a).
Qed.

Lemma snd_bind_ret {A B} (m : M A) (f : A -> B) :
  snd (x <- m ;; ret (f x)) = snd m.
Proof. rewrite snd_bind. destruct (fst m); simpl; by rewrite app_nil_r. Qed.

Lemma for_range_ext {S} (body body' : nat -> S -> M S) steps i s :
  (forall j t, body j t = body' j t) ->
  for_range i steps body s = for_range i steps body' s.
Proof.
  intros Hb. revert i s. induction steps as [| k IH]; intros i s; simpl; [done |].
  rewrite Hb. by apply bind_ext.
Qed.

(** ** The loop fills the result slot by slot *)

Lemma set_Sized_middle {V} (done rest : list V) (old v : V) :
  set (Sized (done ++ old :: rest)) (length done) v
  = Returns (E := E) (Sized ((done ++ [v]) ++ rest)).
Proof.
  unfold set; simpl. rewrite length_app; simpl.
  destruct (decide _) as [_ | Hn]; [| lia].
  f_equal. f_equal. rewrite insert_app_r_alt by lia.
  rewrite Nat.sub_diag; simpl. by rewrite <- app_assoc.
Qed.

Lemma for_range_collect {V} (turn : nat -> M V) steps :
  forall (done rest : list V), length rest = steps ->
  for_range (length done) steps
    (fun i xdot => v <- turn i ;; lift (set xdot i v)) (Sized (done ++ rest))
  = (vs <- collect turn (length done) steps ;; ret (Sized (done ++ vs))).
Proof.
  induction steps as [| k IH]; intros done rest Hlen.
  - destruct rest; [| done]. cbn [for_range collect]. by rewrite bind_ret.
  - destruct rest as [| old rest]; [done |]. simpl in Hlen.
    cbn [for_range collect]. rewrite !bind_assoc. apply bind_ext. intros v.
    rewrite set_Sized_middle, bind_lift_Returns.
    replace (Datatypes.S (length done)) with (length (done ++ [v]))
      by (rewrite length_app; simpl; lia).
    rewrite IH by lia. rewrite bind_assoc. apply bind_ext. intros vs.
    rewrite bind_ret. by rewrite <- app_assoc.
Qed.

Lemma loop_collect {V} `{!UnitVector V} (op : op_type V) (entry : entry_type)
    self time state input :
  for_range 0 (length (systems_ self)) (fun i (acc : NAryState V) =>
      system <- lift (at_index (systems_ self) i) ;;
      x <- lift (get state i) ;;
      u <- lift (get input i) ;;
      v <- invoke (entry system time x u) (op system time x u) ;;
      lift (set acc i v)) (NAryState_sized (length (systems_ self)))
  = per_index op entry self time state input.
Proof.
  unfold per_index. rewrite (for_range_ext _ (fun i acc =>
    v <- unit_at op entry self time state input i ;; lift (set acc i v))).
  - apply (for_range_collect _ _ [] (replicate _ _)). apply length_replicate.
  - intros j acc. unfold unit_at.
    do 3 (rewrite bind_assoc; apply bind_ext; intros ?). reflexivity.
Qed.

Lemma dynamics_unfold self time state input :
  dynamics self time state input =
  if count_differs state (length (systems_ self)) then
    throw (invalid_argument state_count_message)
  else if count_differs input (length (systems_ self)) then
    throw (invalid_argument input_count_message)
  else per_index unit_dynamics dynamics_of self time state input.
Proof. unfold dynamics. cbv zeta. by rewrite loop_collect. Qed.

Lemma output_unfold self time state input :
  output self time state input =
  if count_differs state (length (systems_ self)) then
    throw (invalid_argument state_count_message)
  else if count_differs input (length (systems_ self)) then
    throw (invalid_argument input_count_message)
  else per_index unit_output output_of self time state input.
Proof. unfold output. cbv zeta. by rewrite loop_collect. Qed.

(** ** What the turns of the loop add up to *)

Lemma collect_Returns_iff {V} (turn : nat -> M V) steps : forall i vs,
  fst (collect turn i steps) = Returns vs <->
  length vs = steps /\ forall j v, vs !! j = Some v -> fst (turn (i + j)) = Returns v.
Proof.
  induction steps as [| k IH]; intros i vs; cbn [collect].
  - simpl. split.
    + intros [= <-]. split; [done | intros j v Hj; by rewrite lookup_nil in Hj].
    + intros [Hlen _]. by destruct vs.
  - rewrite fst_bind_Returns. split.
    + intros (v & Hv & Hrest). apply fst_bind_Returns in Hrest as (vs' & Hvs' & Hret).
      simpl in Hret. injection Hret as <-. apply IH in Hvs' as [Hlen Hlook].
      split; [simpl; lia |]. intros [| j] w Hw; simpl in Hw.
      * injection Hw as <-. by rewrite Nat.add_0_r.
      * apply Hlook in Hw. by replace (i + Datatypes.S j) with (Datatypes.S i + j) by lia.
    + intros [Hlen Hlook]. destruct vs as [| v vs']; [done |].
      exists v. split.
      * rewrite <- (Nat.add_0_r i). by apply Hlook.
      * apply fst_bind_Returns. exists vs'. split; [| done].
        apply IH. split; [simpl in Hlen; lia |]. intros j w Hw.
        replace (Datatypes.S i + j) with (i + Datatypes.S j) by lia. by apply Hlook.
Qed.

Lemma collect_total {V} (turn : nat -> M V) steps : forall i,
  (forall j, j < steps -> exists v, fst (turn (i + j)) = Returns v) ->
  exists vs, fst (collect turn i steps) = Returns vs.
Proof.
  induction steps as [| k IH]; intros i Hall; cbn [collect].
  - by exists [].
  - destruct (Hall 0) as [v Hv]; [lia |]. rewrite Nat.add_0_r in Hv.
    destruct (IH (Datatypes.S i)) as [vs Hvs].
    { intros j Hj. destruct (Hall (Datatypes.S j)) as [w Hw]; [lia |].
      exists w. by replace (Datatypes.S i + j) with (i + Datatypes.S j) by lia. }
    exists (v :: vs). apply fst_bind_Returns. exists v. split; [done |].
    apply fst_bind_Returns. by exists vs.
Qed.

Lemma collect_log_lookup {V} (turn : nat -> M V) steps :
  one_entry_per_turn turn -> forall i j entry,
  snd (collect turn i steps) !! j = Some entry ->
  j < steps /\ snd (turn (i + j)) = [entry].
Proof.
  intros Hone. induction steps as [| k IH]; intros i j entry; cbn [collect].
  - simpl. by rewrite lookup_nil.
  - destruct (Hone i) as [Hle Hret]. rewrite snd_bind.
    destruct (turn i) as [[v | e |] log] eqn:Hturn; cbn [fst snd] in *.
    + specialize (Hret v eq_refl). destruct log as [| e0 [| ? ?]]; try done.
      rewrite snd_bind_ret. destruct j as [| j]; simpl.
      * intros [= <-]. rewrite Nat.add_0_r, Hturn. split; [lia | done].
      * intros Hj. destruct (IH _ _ _ Hj) as [? Hlog]. split; [lia |].
        by replace (i + Datatypes.S j) with (Datatypes.S i + j) by lia.
    + rewrite app_nil_r. destruct log as [| e0 [| ? ?]]; simpl in Hle; try lia;
        [by rewrite lookup_nil |].
      destruct j as [| j]; simpl; [| by rewrite lookup_nil].
      intros [= <-]. rewrite Nat.add_0_r, Hturn. split; [lia | done].
    + rewrite app_nil_r. destruct log as [| e0 [| ? ?]]; simpl in Hle; try lia;
        [by rewrite lookup_nil |].
      destruct j as [| j]; simpl; [| by rewrite lookup_nil].
      intros [= <-]. rewrite Nat.add_0_r, Hturn. split; [lia | done].
Qed.

Lemma collect_log_length {V} (turn : nat -> M V) steps :
  one_entry_per_turn turn -> forall i vs,
  fst (collect turn i steps) = Returns vs ->
  length (snd (collect turn i steps)) = steps.
Proof.
  intros Hone. induction steps as [| k IH]; intros i vs; cbn [collect]; [done |].
  intros Hfst. apply fst_bind_Returns in Hfst as (v & Hv & Hrest).
  apply fst_bind_Returns in Hrest as (vs' & Hvs' & _).
  destruct (Hone i) as [_ Hret]. specialize (Hret v Hv). specialize (IH _ _ Hvs').
  rewrite snd_bind, Hv, snd_bind_ret, length_app. lia.
Qed.

(** An entry whose turn throws [e]: once it is in the log the whole loop has
    thrown [e], and it is the last entry. *)
Lemma collect_entry_Throws {V} (turn : nat -> M V) entry e steps :
  (forall j, entry ∈ snd (turn j) -> fst (turn j) = Throws e) -> forall i,
  entry ∈ snd (collect turn i steps) ->
  fst (collect turn i steps) = Throws e.
Proof.
  intros Hthrows. induction steps as [| k IH]; intros i; cbn [collect].
  - simpl. by intros ?%elem_of_nil.
  - pose proof (Hthrows i) as Hi. rewrite snd_bind, fst_bind.
    destruct (turn i) as [[v | e' |] log]; cbn [fst snd] in *.
    + rewrite snd_bind_ret, fst_bind.
      intros [Hin | Hin]%elem_of_app; [by specialize (Hi Hin) |].
      by rewrite (IH _ Hin).
    + rewrite app_nil_r. intros Hin. specialize (Hi Hin). by injection Hi as ->.
    + rewrite app_nil_r. intros Hin. by specialize (Hi Hin).
Qed.

Lemma collect_entry_last {V} (turn : nat -> M V) entry e steps :
  one_entry_per_turn turn ->
  (forall j, entry ∈ snd (turn j) -> fst (turn j) = Throws e) -> forall i,
  entry ∈ snd (collect turn i steps) ->
  last (snd (collect turn i steps)) = Some entry.
Proof.
  intros Hone Hthrows. induction steps as [| k IH]; intros i; cbn [collect].
  - simpl. by intros ?%elem_of_nil.
  - pose proof (Hthrows i) as Hi. destruct (Hone i) as [Hle _]. rewrite snd_bind.
    destruct (turn i) as [[v | e' |] log]; cbn [fst snd] in *.
    + rewrite snd_bind_ret.
      intros [Hin | Hin]%elem_of_app; [by specialize (Hi Hin) |].
      specialize (IH _ Hin).
      destruct (snd (collect turn (Datatypes.S i) k)) as [| e0 log'] eqn:Hlog;
        [done |].
      by rewrite last_app, IH.
    + rewrite app_nil_r. destruct log as [| e0 [| ? ?]]; simpl in Hle; try lia.
      * by intros ?%elem_of_nil.
      * by intros ->%list_elem_of_singleton.
    + rewrite app_nil_r. intros Hin. by specialize (Hi Hin).
Qed.

(** A loop that throws has invoked a unit, when its turns throw only from a
    unit. *)
Lemma collect_Throws_log {V} (turn : nat -> M V) e steps :
  (forall j e', fst (turn j) = Throws e' -> snd (turn j) <> []) -> forall i,
  fst (collect turn i steps) = Throws e ->
  snd (collect turn i steps) <> [].
Proof.
  intros Hlog. induction steps as [| k IH]; intros i; cbn [collect]; [done |].
  pose proof (Hlog i) as Hi. rewrite snd_bind, fst_bind.
  destruct (turn i) as [[v | e' |] log]; cbn [fst snd] in *.
  - rewrite snd_bind_ret, fst_bind. intros Hfst.
    assert (fst (collect turn (Datatypes.S i) k) = Throws e) as Hrest
      by (by destruct (fst (collect turn (Datatypes.S i) k))).
    specialize (IH _ Hrest). intros [_ ?]%app_eq_nil. done.
  - intros _. rewrite app_nil_r. by eapply Hi.
  - done.
Qed.

(** ** One turn: the unit at an index on the slices at that index *)

Lemma get_Returns {V} (v : NAryState V) i x :
  get v i = Returns x <-> slots v !! i = Some x.
Proof.
  unfold get, at_index. destruct (slots v !! i); split; congruence.
Qed.

Lemma get_slots {V} (v : NAryState V) i :
  get v i = match slots v !! i with Some x => Returns x | None => Violation end.
Proof. reflexivity. Qed.

Lemma get_not_Throws {V} (v : NAryState V) i e : get v i <> Throws e.
Proof. unfold get, at_index. by destruct (slots v !! i). Qed.

Lemma get_Sized {V} (units : list V) i x :
  get (Sized units) i = Returns x <-> units !! i = Some x.
Proof. apply get_Returns. Qed.

Section Turn.

Context {V : Type} (op : op_type V) (entry : entry_type).
Context (self : @NArySystem UnitSystem) (time : Scalar).
Context (state : NAryState StateV) (input : NAryState InputV).

Lemma unit_at_reached i system x u :
  systems_ self !! i = Some system ->
  get state i = Returns x -> get input i = Returns u ->
  unit_at op entry self time state input i
  = (op system time x u, [entry system time x u]).
Proof.
  intros Hs Hx Hu. unfold unit_at, at_index. rewrite Hs, Hx, Hu.
  rewrite !bind_lift_Returns. reflexivity.
Qed.

Lemma unit_at_cases i :
  (exists system x u, systems_ self !! i = Some system /\
     get state i = Returns x /\ get input i = Returns u /\
     unit_at op entry self time state input i
     = (op system time x u, [entry system time x u]))
  \/ unit_at op entry self time state input i = (Violation, []).
Proof.
  destruct (systems_ self !! i) as [system |] eqn:Hs.
  - destruct (get state i) as [x | e |] eqn:Hx.
    + destruct (get input i) as [u | e |] eqn:Hu.
      * left. exists system, x, u. by rewrite (unit_at_reached i system x u).
      * by apply get_not_Throws in Hu.
      * right. unfold unit_at, at_index. rewrite Hs, Hx, Hu.
        by rewrite !bind_lift_Returns.
    + by apply get_not_Throws in Hx.
    + right. unfold unit_at, at_index. rewrite Hs, Hx.
      by rewrite !bind_lift_Returns.
  - right. unfold unit_at, at_index. by rewrite Hs.
Qed.

Lemma unit_at_one_entry :
  one_entry_per_turn (unit_at op entry self time state input).
Proof.
  intros j. destruct (unit_at_cases j) as [(s & x & u & _ & _ & _ & ->) | ->];
    simpl; split; auto; done.
Qed.

Lemma unit_at_Throws_log j e :
  fst (unit_at op entry self time state input j) = Throws e ->
  snd (unit_at op entry self time state input j) <> [].
Proof.
  destruct (unit_at_cases j) as [(s & x & u & _ & _ & _ & ->) | ->]; done.
Qed.

Lemma unit_at_Returns i d :
  fst (unit_at op entry self time state input i) = Returns d <->
  exists system x u, systems_ self !! i = Some system /\
    get state i = Returns x /\ get input i = Returns u /\
    op system time x u = Returns d.
Proof.
  split.
  - destruct (unit_at_cases i) as [(s & x & u & Hs & Hx & Hu & ->) | ->];
      [| done]. simpl. intros Hd. by exists s, x, u.
  - intros (s & x & u & Hs & Hx & Hu & Hd).
    by rewrite (unit_at_reached i s x u).
Qed.

(** ** The whole loop *)

Lemma collect_units_return :
  units_return op self time state input ->
  exists vs log,
    collect (unit_at op entry self time state input) 0 (length (systems_ self))
    = (Returns vs, log) /\
    length vs = length (systems_ self) /\ length log = length (systems_ self) /\
    forall i system, systems_ self !! i = Some system ->
      exists x u d, get state i = Returns x /\ get input i = Returns u /\
        op system time x u = Returns d /\
        vs !! i = Some d /\ log !! i = Some (entry system time x u).
Proof.
  intros Hall.
  destruct (collect_total (unit_at op entry self time state input)
              (length (systems_ self)) 0) as [vs Hvs].
  { intros j Hj. destruct (lookup_lt_is_Some_2 (systems_ self) j Hj) as [s Hs].
    destruct (Hall j s Hs) as (x & u & d & Hx & Hu & Hd).
    exists d. apply unit_at_Returns. by exists s, x, u. }
  pose proof (collect_log_length _ _ unit_at_one_entry _ _ Hvs) as Hloglen.
  pose proof (proj1 (collect_Returns_iff _ _ _ _) Hvs) as [Hlen Hlook].
  destruct (collect _ 0 _) as [o log] eqn:Hcollect. simpl in Hvs, Hloglen. subst o.
  exists vs, log. repeat split; try done.
  intros i s Hs. destruct (Hall i s Hs) as (x & u & d & Hx & Hu & Hd).
  exists x, u, d. repeat split; try done.
  - pose proof (lookup_lt_Some _ _ _ Hs) as Hi.
    destruct (lookup_lt_is_Some_2 vs i) as [d' Hd']; [lia |].
    specialize (Hlook i d' Hd'). simpl in Hlook.
    rewrite (unit_at_reached i s x u) in Hlook by done. simpl in Hlook. congruence.
  - pose proof (lookup_lt_Some _ _ _ Hs) as Hi.
    destruct (lookup_lt_is_Some_2 log i) as [ev Hev]; [lia |].
    pose proof (collect_log_lookup _ (length (systems_ self))
                  unit_at_one_entry 0 i ev) as Hpos.
    rewrite Hcollect in Hpos. destruct (Hpos Hev) as [_ Hturn]. simpl in Hturn.
    rewrite (unit_at_reached i s x u) in Hturn by done. simpl in Hturn. congruence.
Qed.

End Turn.

Lemma count_differs_false {V} (v : NAryState V) size :
  count_differs v size = false <-> count_accepted v size.
Proof.
  unfold count_differs, count_accepted.
  rewrite andb_false_iff, negb_false_iff, Z.leb_gt, Z.eqb_eq. tauto.
Qed.

Lemma count_differs_true {V} (v : NAryState V) size :
  count_differs v size = true <-> (0 <= count v)%Z /\ count v <> Z.of_nat size.
Proof.
  unfold count_differs.
  rewrite andb_true_iff, negb_true_iff, Z.leb_le, Z.eqb_neq. tauto.
Qed.

Lemma dynamics_accepted self time state input :
  count_accepted state (length (systems_ self)) ->
  count_accepted input (length (systems_ self)) ->
  dynamics self time state input = per_index unit_dynamics dynamics_of self time state input.
Proof.
  intros Hs%count_differs_false Hi%count_differs_false.
  by rewrite dynamics_unfold, Hs, Hi.
Qed.

Lemma output_accepted self time state input :
  count_accepted state (length (systems_ self)) ->
  count_accepted input (length (systems_ self)) ->
  output self time state input = per_index unit_output output_of self time state input.
Proof.
  intros Hs%count_differs_false Hi%count_differs_false.
  by rewrite output_unfold, Hs, Hi.
Qed.

(** The result of a loop whose turns all return. *)
Lemma per_index_units_return {V} (op : op_type V) (entry : entry_type)
    self time state input :
  units_return op self time state input ->
  exists (r : NAryState V) log,
    per_index op entry self time state input = (Returns r, log) /\
    count r = Z.of_nat (length (systems_ self)) /\
    length log = length (systems_ self) /\
    forall i system, systems_ self !! i = Some system ->
      exists x u d, get state i = Returns x /\ get input i = Returns u /\
        op system time x u = Returns d /\
        get r i = Returns d /\ log !! i = Some (entry system time x u).
Proof.
  intros Hall. unfold per_index.
  destruct (collect_units_return op entry self time state input Hall)
    as (vs & log & -> & Hlen & Hloglen & Hunits).
  exists (Sized vs), log. simpl. rewrite app_nil_r. repeat split; try done.
  - by rewrite Hlen.
  - intros i s Hs. destruct (Hunits i s Hs) as (x & u & d & ? & ? & ? & ? & ?).
    exists x, u, d. repeat split; try done. by apply get_Sized.
Qed.

(** ** What the log tells *)

Section Loop.

Context {V : Type} (op : op_type V) (entry : entry_type).
Context (self : @NArySystem UnitSystem) (time : Scalar).
Context (state : NAryState StateV) (input : NAryState InputV).

Lemma per_index_fst :
  fst (per_index op entry self time state input) =
  match fst (collect (unit_at op entry self time state input)
               0 (length (systems_ self))) with
  | Returns vs => Returns (Sized vs)
  | Throws e => Throws e
  | Violation => Violation
  end.
Proof. unfold per_index. by rewrite fst_bind. Qed.

Lemma per_index_snd :
  snd (per_index op entry self time state input) =
  snd (collect (unit_at op entry self time state input) 0 (length (systems_ self))).
Proof. unfold per_index. by rewrite snd_bind_ret. Qed.

Lemma per_index_Throws_log e :
  fst (per_index op entry self time state input) = Throws e ->
  snd (per_index op entry self time state input) <> [].
Proof.
  rewrite per_index_fst, per_index_snd. intros Hfst.
  apply (collect_Throws_log _ e).
  - intros j e'. apply unit_at_Throws_log.
  - destruct (fst (collect _ _ _)); try done. by injection Hfst as ->.
Qed.

(** The entry at position [j] of the log is the call of the unit at index
    [j] on the slices at index [j]. *)
Lemma per_index_log_lookup j call :
  snd (per_index op entry self time state input) !! j = Some call ->
  exists system x u, systems_ self !! j = Some system /\
    get state j = Returns x /\ get input j = Returns u /\
    call = entry system time x u.
Proof.
  rewrite per_index_snd. intros Hj.
  apply (collect_log_lookup _ _ (unit_at_one_entry op entry self time state input))
    in Hj as [_ Hturn]. simpl in Hturn.
  destruct (unit_at_cases op entry self time state input j)
    as [(s & x & u & Hs & Hx & Hu & Heq) | Heq]; rewrite Heq in Hturn; [| done].
  exists s, x, u. simpl in Hturn. repeat split; try done. congruence.
Qed.

(** What a returned composite vector holds at the index of a unit. *)
Lemma per_index_Returns_lookup r j system :
  fst (per_index op entry self time state input) = Returns r ->
  systems_ self !! j = Some system ->
  exists x u d, get state j = Returns x /\ get input j = Returns u /\
    op system time x u = Returns d /\ get r j = Returns d.
Proof.
  rewrite per_index_fst. intros Hr Hs.
  destruct (fst (collect _ _ _)) as [vs | e |] eqn:Hvs; try done.
  injection Hr as <-. apply collect_Returns_iff in Hvs as [Hlen Hlook].
  destruct (lookup_lt_is_Some_2 vs j) as [d Hd];
    [rewrite Hlen; by eapply lookup_lt_Some |].
  specialize (Hlook j d Hd). simpl in Hlook.
  apply unit_at_Returns in Hlook as (s' & x & u & Hs' & Hx & Hu & Hop).
  assert (s' = system) as -> by congruence.
  exists x, u, d. repeat split; try done. by apply get_Sized.
Qed.

Lemma per_index_Returns_count r :
  fst (per_index op entry self time state input) = Returns r ->
  count r = Z.of_nat (length (systems_ self)).
Proof.
  rewrite per_index_fst. intros Hr.
  destruct (fst (collect _ _ _)) as [vs | e |] eqn:Hvs; try done.
  injection Hr as <-. apply collect_Returns_iff in Hvs as [Hlen _].
  simpl. by rewrite Hlen.
Qed.

(** A logged call that throws: the loop has thrown the same exception, and
    the call is the last one of the log. *)
Lemma per_index_entry_Throws system x u e :
  (forall s' x' u', entry system time x u = entry s' time x' u' ->
     s' = system /\ x' = x /\ u' = u) ->
  entry system time x u ∈ snd (per_index op entry self time state input) ->
  op system time x u = Throws e ->
  fst (per_index op entry self time state input) = Throws e /\
  last (snd (per_index op entry self time state input))
  = Some (entry system time x u).
Proof.
  intros Hinj Hin Hop. rewrite per_index_fst, per_index_snd in *.
  assert (forall j, entry system time x u
                    ∈ snd (unit_at op entry self time state input j) ->
            fst (unit_at op entry self time state input j) = Throws e) as Hturn.
  { intros j.
    destruct (unit_at_cases op entry self time state input j)
      as [(s' & x' & u' & _ & _ & _ & ->) | ->]; simpl.
    - intros Heq%list_elem_of_singleton.
      destruct (Hinj _ _ _ Heq) as (-> & -> & ->). done.
    - by intros ?%elem_of_nil. }
  split.
  - by rewrite (collect_entry_Throws _ _ e _ Hturn 0 Hin).
  - by apply (collect_entry_last _ _ e _
                (unit_at_one_entry op entry self time state input) Hturn).
Qed.

End Loop.

(** A loop that returns: every turn has returned. *)
Lemma per_index_Returns_units_return {V} (op : op_type V) (entry : entry_type)
    self time state input r :
  fst (per_index op entry self time state input) = Returns r ->
  units_return op self time state input.
Proof.
  intros Hr i system Hs.
  destruct (per_index_Returns_lookup _ _ _ _ _ _ _ _ _ Hr Hs)
    as (x & u & d & Hx & Hu & Hd & _).
  by exists x, u, d.
Qed.

(** C1. When the counts of the composite state and input pass the checks,
    [dynamics] returns exactly when every turn returns (both slices are there
    and the unit returns a value); it then returns a composite vector whose
    count is the number of unit systems and which holds, at every index [i],
    what the unit at index [i] returned on the slices [state.get(i)] and
    [input.get(i)], the units having been invoked once each, in index order.
    [output] does the same with each unit's [output]. *)
Theorem dynamics_output_per_unit self time state input :
  count_accepted state (length (systems_ self)) ->
  count_accepted input (length (systems_ self)) ->
  ((exists xdot, fst (dynamics self time state input) = Returns xdot) <->
   units_return unit_dynamics self time state input)
  /\
  (units_return unit_dynamics self time state input ->
   exists xdot log,
     dynamics self time state input = (Returns xdot, log) /\
     count xdot = Z.of_nat (length (systems_ self)) /\
     length log = length (systems_ self) /\
     forall i system, systems_ self !! i = Some system ->
       exists x u d, get state i = Returns x /\ get input i = Returns u /\
         unit_dynamics system time x u = Returns d /\
         get xdot i = Returns d /\ log !! i = Some (dynamics_of system time x u))
  /\
  ((exists y, fst (output self time state input) = Returns y) <->
   units_return unit_output self time state input)
  /\
  (units_return unit_output self time state input ->
   exists y log,
     output self time state input = (Returns y, log) /\
     count y = Z.of_nat (length (systems_ self)) /\
     length log = length (systems_ self) /\
     forall i system, systems_ self !! i = Some system ->
       exists x u d, get state i = Returns x /\ get input i = Returns u /\
         unit_output system time x u = Returns d /\
         get y i = Returns d /\ log !! i = Some (output_of system time x u)).
Proof.
  intros Hstate Hinput.
  rewrite dynamics_accepted, output_accepted by done.
  split; [| split; [| split]].
  - split.
    + intros [xdot Hr]. by eapply per_index_Returns_units_return.
    + intros Hall.
      destruct (per_index_units_return unit_dynamics dynamics_of _ _ _ _ Hall)
        as (r & log & Heq & _).
      exists r. by rewrite Heq.
  - by apply per_index_units_return.
  - split.
    + intros [y Hr]. by eapply per_index_Returns_units_return.
    + intros Hall.
      destruct (per_index_units_return unit_output output_of _ _ _ _ Hall)
        as (r & log & Heq & _).
      exists r. by rewrite Heq.
  - by apply per_index_units_return.
Qed.

(** ** The count checks *)

Lemma messages_differ : state_count_message <> input_count_message.
Proof. done. Qed.

Lemma count_accepted_not_rejected {V} (v : NAryState V) size :
  count_accepted v size <-> ~ count_rejected v size.
Proof. unfold count_accepted, count_rejected. lia. Qed.

Lemma checked_call {A} (m loop : M A) {V W}
    (state : NAryState V) (input : NAryState W) size :
  m = (if count_differs state size then throw (invalid_argument state_count_message)
       else if count_differs input size then throw (invalid_argument input_count_message)
       else loop) ->
  (forall e, fst loop = Throws e -> snd loop <> []) ->
  count_checks_then m loop state input size.
Proof.
  intros -> Hloop. unfold count_checks_then, shape_mismatch, throw.
  pose proof messages_differ as Hmsg.
  assert (forall what, loop <> (Throws (invalid_argument what), [])) as Hno.
  { intros what Heq. apply (Hloop (invalid_argument what)); by rewrite Heq. }
  destruct (count_differs state size) eqn:Hs;
    [apply count_differs_true in Hs | apply count_differs_false in Hs];
    (destruct (count_differs input size) eqn:Hi;
      [apply count_differs_true in Hi | apply count_differs_false in Hi]);
    unfold count_accepted, count_rejected in *;
    repeat split;
    repeat match goal with
           | |- _ -> _ => intros ?
           | H : exists _, _ |- _ => destruct H as [? ?]
           | H : _ /\ _ |- _ => destruct H as [? ?]
           | H : loop = _ |- _ => by apply Hno in H
           end;
    try done; try lia; try congruence; eauto; try tauto.
Qed.

(** C2. [dynamics], and likewise [output], fails with the invalid-argument
    shape mismatch exactly when the state's count is known and differs from
    the number of unit systems (message "State count differs from systems
    count.") or the input's is known and differs ("Input count differs from
    systems count.", reported when the state's check has passed); a negative
    count never fails its check, and a call whose counts are negative or
    equal to the number of unit systems is the loop over the indices. *)
Theorem count_validation self time state input :
  count_checks_then (dynamics self time state input)
    (per_index unit_dynamics dynamics_of self time state input)
    state input (length (systems_ self))
  /\
  count_checks_then (output self time state input)
    (per_index unit_output output_of self time state input)
    state input (length (systems_ self)).
Proof.
  split.
  - apply checked_call; [apply dynamics_unfold |].
    intros e. apply per_index_Throws_log.
  - apply checked_call; [apply output_unfold |].
    intros e. apply per_index_Throws_log.
Qed.

(** Either a count check has failed and no unit was invoked, or both counts
    have passed and the call is the loop. *)
Lemma dynamics_cases self time state input :
  (snd (dynamics self time state input) = [] /\
   (count_rejected state (length (systems_ self)) \/
    count_rejected input (length (systems_ self))) /\
   exists what, fst (dynamics self time state input) = Throws (invalid_argument what))
  \/ dynamics self time state input
     = per_index unit_dynamics dynamics_of self time state input.
Proof.
  rewrite dynamics_unfold.
  destruct (count_differs state _) eqn:Hs;
    [left; apply count_differs_true in Hs; simpl; eauto |].
  destruct (count_differs input _) eqn:Hi;
    [left; apply count_differs_true in Hi; simpl; eauto |].
  by right.
Qed.

Lemma output_cases self time state input :
  (snd (output self time state input) = [] /\
   (count_rejected state (length (systems_ self)) \/
    count_rejected input (length (systems_ self))) /\
   exists what, fst (output self time state input) = Throws (invalid_argument what))
  \/ output self time state input
     = per_index unit_output output_of self time state input.
Proof.
  rewrite output_unfold.
  destruct (count_differs state _) eqn:Hs;
    [left; apply count_differs_true in Hs; simpl; eauto |].
  destruct (count_differs input _) eqn:Hi;
    [left; apply count_differs_true in Hi; simpl; eauto |].
  by right.
Qed.

(** C9. The state's count is checked first: when both counts are known and
    both differ from the number of unit systems, [dynamics] and [output] fail
    with the state's message, which is not the input's; and whenever a check
    fails, no unit system has been invoked. *)
Theorem state_check_first self time state input :
  (count_rejected state (length (systems_ self)) ->
   count_rejected input (length (systems_ self)) ->
   dynamics self time state input
   = (Throws (invalid_argument state_count_message), []) /\
   output self time state input
   = (Throws (invalid_argument state_count_message), []) /\
   state_count_message <> input_count_message)
  /\
  (count_rejected state (length (systems_ self)) \/
   count_rejected input (length (systems_ self)) ->
   snd (dynamics self time state input) = [] /\
   snd (output self time state input) = []).
Proof.
  split.
  - intros Hs%count_differs_true _.
    rewrite dynamics_unfold, output_unfold, Hs. repeat split. apply messages_differ.
  - intros Hrej. rewrite dynamics_unfold, output_unfold.
    destruct (count_differs state _) eqn:Hs; [done |].
    destruct (count_differs input _) eqn:Hi; [done |].
    apply count_differs_false, count_accepted_not_rejected in Hs, Hi. tauto.
Qed.

(** C7. A unit system's [dynamics] that throws during a call of the
    aggregate's [dynamics] (the call of the unit is in the log) makes the
    aggregate's call throw that very exception: no composite vector is
    returned, and no unit is invoked after the one that threw. Likewise for
    [output]. *)
Theorem unit_failure_propagates self time state input system x u e :
  (dynamics_of system time x u ∈ snd (dynamics self time state input) ->
   unit_dynamics system time x u = Throws e ->
   fst (dynamics self time state input) = Throws e /\
   last (snd (dynamics self time state input)) = Some (dynamics_of system time x u))
  /\
  (output_of system time x u ∈ snd (output self time state input) ->
   unit_output system time x u = Throws e ->
   fst (output self time state input) = Throws e /\
   last (snd (output self time state input)) = Some (output_of system time x u)).
Proof.
  split; intros Hin Hop.
  - destruct (dynamics_cases self time state input) as [[Hlog _] | Heq].
    + rewrite Hlog in Hin. by apply elem_of_nil in Hin.
    + rewrite Heq in *. apply per_index_entry_Throws; try done.
      intros s' x' u' [= -> -> ->]. done.
  - destruct (output_cases self time state input) as [[Hlog _] | Heq].
    + rewrite Hlog in Hin. by apply elem_of_nil in Hin.
    + rewrite Heq in *. apply per_index_entry_Throws; try done.
      intros s' x' u' [= -> -> ->]. done.
Qed.

(** ** Independence of the units *)

Lemma per_index_Returns_Sized {V} (op : op_type V) (entry : entry_type)
    self time state input r :
  fst (per_index op entry self time state input) = Returns r ->
  exists vs, r = Sized vs /\ length vs = length (systems_ self) /\
    fst (collect (unit_at op entry self time state input) 0 (length (systems_ self)))
    = Returns vs.
Proof.
  rewrite per_index_fst. intros Hr.
  destruct (fst (collect _ _ _)) as [vs | e |] eqn:Hvs; try done.
  injection Hr as <-. exists vs. repeat split; try done.
  by apply collect_Returns_iff in Hvs as [Hlen _].
Qed.

Lemma per_index_replace {V} (op : op_type V) (entry : entry_type)
    self time state input state' input' i system x' u' d' r :
  fst (per_index op entry self time state input) = Returns r ->
  (forall j, j <> i -> get state' j = get state j /\ get input' j = get input j) ->
  systems_ self !! i = Some system ->
  get state' i = Returns x' -> get input' i = Returns u' ->
  op system time x' u' = Returns d' ->
  exists r', fst (per_index op entry self time state' input') = Returns r' /\
    set r i d' = Returns r' /\
    forall j, j <> i -> get r' j = get r j.
Proof.
  intros Hr Hsame Hs Hx' Hu' Hd'.
  apply per_index_Returns_Sized in Hr as (vs & -> & Hlen & Hvs).
  apply collect_Returns_iff in Hvs as [_ Hlook].
  pose proof (lookup_lt_Some _ _ _ Hs) as Hi.
  exists (Sized (<[i := d']> vs)). repeat split.
  - rewrite per_index_fst.
    assert (fst (collect (unit_at op entry self time state' input') 0
                   (length (systems_ self))) = Returns (<[i := d']> vs)) as ->; [| done].
    apply collect_Returns_iff. split; [by rewrite length_insert |].
    intros j v Hj. simpl. apply unit_at_Returns.
    destruct (decide (j = i)) as [-> | Hne].
    + rewrite list_lookup_insert_eq in Hj by lia. injection Hj as <-.
      by exists system, x', u'.
    + rewrite list_lookup_insert_ne in Hj by done.
      apply Hlook in Hj. simpl in Hj.
      apply unit_at_Returns in Hj as (s & x & u & ? & ? & ? & ?).
      destruct (Hsame j Hne) as [-> ->]. by exists s, x, u.
  - unfold set. simpl. destruct (decide _); [done | lia].
  - intros j Hne. rewrite !get_slots. simpl.
    by rewrite list_lookup_insert_ne.
Qed.

Lemma per_index_agree {V} (op : op_type V) (entry : entry_type)
    self time state input state' input' i r r' :
  fst (per_index op entry self time state input) = Returns r ->
  fst (per_index op entry self time state' input') = Returns r' ->
  (forall j, j <> i -> get state' j = get state j /\ get input' j = get input j) ->
  forall j, j <> i -> get r' j = get r j.
Proof.
  intros Hr Hr' Hsame j Hne.
  destruct (systems_ self !! j) as [s |] eqn:Hs.
  - destruct (per_index_Returns_lookup _ _ _ _ _ _ _ _ _ Hr Hs)
      as (x & u & d & Hx & Hu & Hd & ->).
    destruct (per_index_Returns_lookup _ _ _ _ _ _ _ _ _ Hr' Hs)
      as (x' & u' & d' & Hx' & Hu' & Hd' & ->).
    destruct (Hsame j Hne) as [Hsx Hsu]. congruence.
  - apply lookup_ge_None in Hs.
    apply per_index_Returns_Sized in Hr as (vs & -> & Hlen & _).
    apply per_index_Returns_Sized in Hr' as (vs' & -> & Hlen' & _).
    rewrite !get_slots. simpl.
    by rewrite !(proj2 (lookup_ge_None _ _)) by lia.
Qed.

Lemma dynamics_Returns_per_index self time state input r :
  fst (dynamics self time state input) = Returns r ->
  dynamics self time state input
  = per_index unit_dynamics dynamics_of self time state input.
Proof.
  intros Hr. destruct (dynamics_cases self time state input)
    as [(_ & _ & what & Hthrows) | Heq]; congruence.
Qed.

Lemma output_Returns_per_index self time state input r :
  fst (output self time state input) = Returns r ->
  output self time state input
  = per_index unit_output output_of self time state input.
Proof.
  intros Hr. destruct (output_cases self time state input)
    as [(_ & _ & what & Hthrows) | Heq]; congruence.
Qed.

(** C3. Two pairs of composite state and input that agree at every index but
    [i]: results of [dynamics] (of [output]) on the two agree at every index
    but [i]. When the call on the first pair returns, the second pair passes
    the count checks and the unit at index [i] returns on its new slices, the
    call on the second pair returns as well, and its result is the first
    result with the value at index [i] replaced. *)
Theorem units_independent self time state input state' input' i :
  (forall j, j <> i -> get state' j = get state j /\ get input' j = get input j) ->
  (forall xdot xdot',
     fst (dynamics self time state input) = Returns xdot ->
     fst (dynamics self time state' input') = Returns xdot' ->
     forall j, j <> i -> get xdot' j = get xdot j)
  /\
  (forall y y',
     fst (output self time state input) = Returns y ->
     fst (output self time state' input') = Returns y' ->
     forall j, j <> i -> get y' j = get y j)
  /\
  (forall system x' u',
     systems_ self !! i = Some system ->
     count_accepted state' (length (systems_ self)) ->
     count_accepted input' (length (systems_ self)) ->
     get state' i = Returns x' -> get input' i = Returns u' ->
     (forall xdot d', fst (dynamics self time state input) = Returns xdot ->
        unit_dynamics system time x' u' = Returns d' ->
        exists xdot', fst (dynamics self time state' input') = Returns xdot' /\
          set xdot i d' = Returns xdot' /\
          forall j, j <> i -> get xdot' j = get xdot j)
     /\
     (forall y d', fst (output self time state input) = Returns y ->
        unit_output system time x' u' = Returns d' ->
        exists y', fst (output self time state' input') = Returns y' /\
          set y i d' = Returns y' /\
          forall j, j <> i -> get y' j = get y j)).
Proof.
  intros Hsame. split; [| split].
  - intros xdot xdot' Hr Hr'.
    rewrite (dynamics_Returns_per_index _ _ _ _ _ Hr) in Hr.
    rewrite (dynamics_Returns_per_index _ _ _ _ _ Hr') in Hr'.
    by eapply per_index_agree.
  - intros y y' Hr Hr'.
    rewrite (output_Returns_per_index _ _ _ _ _ Hr) in Hr.
    rewrite (output_Returns_per_index _ _ _ _ _ Hr') in Hr'.
    by eapply per_index_agree.
  - intros system x' u' Hs Hstate' Hinput' Hx' Hu'. split.
    + intros xdot d' Hr Hd'.
      rewrite (dynamics_Returns_per_index _ _ _ _ _ Hr) in Hr.
      rewrite (dynamics_accepted self time state' input') by done.
      by eapply per_index_replace.
    + intros y d' Hr Hd'.
      rewrite (output_Returns_per_index _ _ _ _ _ Hr) in Hr.
      rewrite (output_accepted self time state' input') by done.
      by eapply per_index_replace.
Qed.

(** ** Registration and the queries *)

Lemma systems_addSystem_all (self : @NArySystem UnitSystem) later :
  systems_ (fold_left addSystem later self) = systems_ self ++ later.
Proof.
  revert self. induction later as [| system later IH]; intros self; simpl.
  - by rewrite app_nil_r.
  - rewrite IH. simpl. by rewrite <- app_assoc.
Qed.

(** C4. [getNumStates], [getNumInputs] and [getNumOutputs] are
    [rowsFromUnitCount] of the state, input and output composite vector at
    the number of unit systems, for every aggregate and so for the one that
    [addSystem] built from any list of units; on an aggregate without units
    all three are zero. *)
Theorem row_counts (self : @NArySystem UnitSystem) (units : list UnitSystem) :
  (getNumStates self = rowsFromUnitCount StateV (length (systems_ self)) /\
   getNumInputs self = rowsFromUnitCount InputV (length (systems_ self)) /\
   getNumOutputs self = rowsFromUnitCount OutputV (length (systems_ self)))
  /\
  (getNumStates (fold_left addSystem units NArySystem_new)
   = rowsFromUnitCount StateV (length units) /\
   getNumInputs (fold_left addSystem units NArySystem_new)
   = rowsFromUnitCount InputV (length units) /\
   getNumOutputs (fold_left addSystem units NArySystem_new)
   = rowsFromUnitCount OutputV (length units))
  /\
  (getNumStates (@NArySystem_new UnitSystem) = 0 /\
   getNumInputs (@NArySystem_new UnitSystem) = 0 /\
   getNumOutputs (@NArySystem_new UnitSystem) = 0).
Proof.
  split; [by repeat split |]. split; [| by repeat split].
  unfold getNumStates, getNumInputs, getNumOutputs.
  by rewrite systems_addSystem_all.
Qed.

Lemma first_unit_flag (flag : UnitSystem -> bool) (self : @NArySystem UnitSystem) :
  (if (0 <? length (systems_ self))%nat then
     match at_index (E := E) (systems_ self) 0 with
     | Returns system => Returns (flag system)
     | Throws e => Throws e
     | Violation => Violation
     end
   else Returns false)
  = Returns match systems_ self with
            | [] => false
            | first :: _ => flag first
            end.
Proof. by destruct (systems_ self). Qed.

(** C5. [isTimeVarying] is true exactly when the aggregate has a unit and
    its first unit is time varying, and [isDirectFeedthrough] is true exactly
    when it has a unit and its first unit has direct feedthrough; both always
    return, both are false on an aggregate without units, and on an aggregate
    that started with [first] both are the flags of [first], whatever units
    were registered later. *)
Theorem flags_of_first_unit (self : @NArySystem UnitSystem) :
  (isTimeVarying self = Returns true <->
   0 < length (systems_ self) /\
   exists first, systems_ self !! 0 = Some first /\ unit_isTimeVarying first = true)
  /\
  (isDirectFeedthrough self = Returns true <->
   0 < length (systems_ self) /\
   exists first, systems_ self !! 0 = Some first /\ unit_isDirectFeedthrough first = true)
  /\
  (exists varying feedthrough,
     isTimeVarying self = Returns varying /\
     isDirectFeedthrough self = Returns feedthrough)
  /\
  (isTimeVarying (@NArySystem_new UnitSystem) = Returns false /\
   isDirectFeedthrough (@NArySystem_new UnitSystem) = Returns false)
  /\
  (forall first later,
     isTimeVarying (fold_left addSystem later (addSystem NArySystem_new first))
     = Returns (unit_isTimeVarying first) /\
     isDirectFeedthrough (fold_left addSystem later (addSystem NArySystem_new first))
     = Returns (unit_isDirectFeedthrough first)).
Proof.
  unfold isTimeVarying, isDirectFeedthrough. rewrite !first_unit_flag.
  repeat split.
  - destruct (systems_ self); simpl; [done | lia].
  - destruct (systems_ self) as [| first rest]; [done |].
    exists first. split; [done | congruence].
  - intros [_ (first & Hfirst & Hflag)].
    destruct (systems_ self); simplify_eq/=. by rewrite Hflag.
  - destruct (systems_ self); simpl; [done | lia].
  - destruct (systems_ self) as [| first rest]; [done |].
    exists first. split; [done | congruence].
  - intros [_ (first & Hfirst & Hflag)].
    destruct (systems_ self); simplify_eq/=. by rewrite Hflag.
  - eauto.
  - rewrite first_unit_flag, systems_addSystem_all. done.
  - rewrite first_unit_flag, systems_addSystem_all. done.
Qed.

(** The call at position [k] of the log, from the side of what goes in: when
    the turns before [k] return and turn [k] leaves the entry [call], the log
    of the loop holds [call] at position [k]. *)
Lemma collect_log_reached {V} (turn : nat -> M V) call k : forall steps i,
  k < steps ->
  (forall j, j < k ->
     (exists v, fst (turn (i + j)) = Returns v) /\ length (snd (turn (i + j))) = 1) ->
  snd (turn (i + k)) = [call] ->
  snd (collect turn i steps) !! k = Some call.
Proof.
  induction k as [| k IH]; intros steps i Hk Hbefore Hcall;
    (destruct steps as [| steps]; [lia |]); cbn [collect]; rewrite snd_bind.
  - rewrite Nat.add_0_r in Hcall. by rewrite Hcall.
  - destruct (Hbefore 0) as [[v Hv] Hlen]; [lia |].
    rewrite Nat.add_0_r in Hv, Hlen. rewrite Hv, snd_bind_ret.
    destruct (snd (turn i)) as [| first [| ? ?]]; try done. simpl.
    apply IH; [lia | |].
    + intros j Hj. replace (Datatypes.S i + j) with (i + Datatypes.S j) by lia.
      apply Hbefore. lia.
    + by replace (Datatypes.S i + k) with (i + Datatypes.S k) by lia.
Qed.

Lemma per_index_log_reached {V} (op : op_type V) (entry : entry_type)
    self time state input k system x u :
  systems_ self !! k = Some system ->
  get state k = Returns x -> get input k = Returns u ->
  (forall j s, j < k -> systems_ self !! j = Some s ->
     exists xj uj d, get state j = Returns xj /\ get input j = Returns uj /\
       op s time xj uj = Returns d) ->
  snd (per_index op entry self time state input) !! k = Some (entry system time x u).
Proof.
  intros Hs Hx Hu Hbefore. rewrite per_index_snd.
  pose proof (lookup_lt_Some _ _ _ Hs) as Hk.
  apply collect_log_reached; [done | |].
  - intros j Hj. simpl.
    destruct (lookup_lt_is_Some_2 (systems_ self) j) as [s Hsj]; [lia |].
    destruct (Hbefore j s Hj Hsj) as (xj & uj & d & Hxj & Huj & Hd).
    rewrite (unit_at_reached op entry self time state input j s xj uj) by done.
    split; [by exists d | done].
  - simpl. by rewrite (unit_at_reached op entry self time state input k system x u).
Qed.

(** C6. [addSystem] puts the unit after all units registered before, on an
    aggregate of any length; a unit keeps its index whatever is registered
    later. After registering [A] and then [B] on a new aggregate, [A] is at
    index 0 and [B] at index 1, and in every later call of [dynamics] or
    [output], with any units registered in between: the second unit invoked
    is [B], on the slices at index 1 of the composite state and input, and a
    returned composite vector holds at index 1 what [B] returned on them.
    From the side of what goes in: when the counts pass the checks, the
    slices at indices 0 and 1 are there and [A] returns on the slices at
    index 0, [B] is invoked on the slices at index 1; and when every turn
    returns, the call returns a vector with [B]'s value on those slices at
    index 1. *)
Theorem addSystem_order :
  (forall (self : @NArySystem UnitSystem) unit,
     systems_ (addSystem self unit) = systems_ self ++ [unit] /\
     length (systems_ (addSystem self unit)) = Datatypes.S (length (systems_ self)) /\
     systems_ (addSystem self unit) !! length (systems_ self) = Some unit)
  /\
  (forall (self : @NArySystem UnitSystem) i unit later,
     systems_ self !! i = Some unit ->
     systems_ (fold_left addSystem later self) !! i = Some unit)
  /\
  (forall A B later,
     let self := fold_left addSystem later (addSystem (addSystem NArySystem_new A) B) in
     systems_ self !! 0 = Some A /\ systems_ self !! 1 = Some B /\
     forall time state input,
       (forall call, snd (dynamics self time state input) !! 1 = Some call ->
          exists x u, get state 1 = Returns x /\ get input 1 = Returns u /\
            call = dynamics_of B time x u) /\
       (forall call, snd (output self time state input) !! 1 = Some call ->
          exists x u, get state 1 = Returns x /\ get input 1 = Returns u /\
            call = output_of B time x u) /\
       (forall xdot, fst (dynamics self time state input) = Returns xdot ->
          exists x u d, get state 1 = Returns x /\ get input 1 = Returns u /\
            unit_dynamics B time x u = Returns d /\ get xdot 1 = Returns d) /\
       (forall y, fst (output self time state input) = Returns y ->
          exists x u d, get state 1 = Returns x /\ get input 1 = Returns u /\
            unit_output B time x u = Returns d /\ get y 1 = Returns d))
  /\
  (forall A B later time state input x0 u0 x1 u1,
     let self := fold_left addSystem later (addSystem (addSystem NArySystem_new A) B) in
     count_accepted state (length (systems_ self)) ->
     count_accepted input (length (systems_ self)) ->
     get state 0 = Returns x0 -> get input 0 = Returns u0 ->
     get state 1 = Returns x1 -> get input 1 = Returns u1 ->
     (forall d0, unit_dynamics A time x0 u0 = Returns d0 ->
        snd (dynamics self time state input) !! 1 = Some (dynamics_of B time x1 u1)) /\
     (forall d0, unit_output A time x0 u0 = Returns d0 ->
        snd (output self time state input) !! 1 = Some (output_of B time x1 u1)) /\
     (units_return unit_dynamics self time state input ->
        exists xdot d, fst (dynamics self time state input) = Returns xdot /\
          unit_dynamics B time x1 u1 = Returns d /\ get xdot 1 = Returns d) /\
     (units_return unit_output self time state input ->
        exists y d, fst (output self time state input) = Returns y /\
          unit_output B time x1 u1 = Returns d /\ get y 1 = Returns d)).
Proof.
  split; [| split; [| split]].
  - intros self unit. repeat split.
    + simpl. rewrite length_app. simpl. lia.
    + simpl. by rewrite lookup_app_r, Nat.sub_diag.
  - intros self i unit later Hi. rewrite systems_addSystem_all.
    by apply lookup_app_l_Some.
  - intros A B later self.
    assert (systems_ self !! 1 = Some B) as HB
      by (unfold self; by rewrite systems_addSystem_all).
    split; [unfold self; by rewrite systems_addSystem_all |]. split; [done |].
    intros time state input. repeat split.
    + intros call Hcall.
      destruct (dynamics_cases self time state input) as [[Hlog _] | Heq];
        [by rewrite Hlog in Hcall |].
      rewrite Heq in Hcall.
      apply per_index_log_lookup in Hcall as (s & x & u & Hs & Hx & Hu & ->).
      exists x, u. repeat split; try done. congruence.
    + intros call Hcall.
      destruct (output_cases self time state input) as [[Hlog _] | Heq];
        [by rewrite Hlog in Hcall |].
      rewrite Heq in Hcall.
      apply per_index_log_lookup in Hcall as (s & x & u & Hs & Hx & Hu & ->).
      exists x, u. repeat split; try done. congruence.
    + intros xdot Hr. rewrite (dynamics_Returns_per_index _ _ _ _ _ Hr) in Hr.
      by eapply per_index_Returns_lookup.
    + intros y Hr. rewrite (output_Returns_per_index _ _ _ _ _ Hr) in Hr.
      by eapply per_index_Returns_lookup.
  - intros A B later time state input x0 u0 x1 u1 self Hstate Hinput Hx0 Hu0 Hx1 Hu1.
    assert (systems_ self !! 0 = Some A) as HA
      by (unfold self; by rewrite systems_addSystem_all).
    assert (systems_ self !! 1 = Some B) as HB
      by (unfold self; by rewrite systems_addSystem_all).
    rewrite dynamics_accepted, output_accepted by done.
    split; [| split; [| split]].
    + intros d0 Hd0. apply per_index_log_reached; try done.
      intros [| j] s Hj Hs; [| lia].
      assert (s = A) as -> by congruence. by exists x0, u0, d0.
    + intros d0 Hd0. apply per_index_log_reached; try done.
      intros [| j] s Hj Hs; [| lia].
      assert (s = A) as -> by congruence. by exists x0, u0, d0.
    + intros Hall.
      destruct (per_index_units_return unit_dynamics dynamics_of _ _ _ _ Hall)
        as (r & log & Heq & _ & _ & Hunits).
      destruct (Hunits 1 B HB) as (x & u & d & Hx & Hu & Hd & Hr & _).
      exists r, d. rewrite Heq. repeat split; try done. congruence.
    + intros Hall.
      destruct (per_index_units_return unit_output output_of _ _ _ _ Hall)
        as (r & log & Heq & _ & _ & Hunits).
      destruct (Hunits 1 B HB) as (x & u & d & Hx & Hu & Hd & Hr & _).
      exists r, d. rewrite Heq. repeat split; try done. congruence.
Qed.

(** ** The aggregate as an object *)

Lemma method_bind_unchanged {A B} (m : Method A) (k : A -> Method B)
    (self : @NArySystem UnitSystem) (r : M A) (k' : A -> M B) :
  m self = Some (r, self) ->
  (forall a, k a self = Some (k' a, self)) ->
  method_bind m k self = Some (bind r k', self).
Proof.
  intros Hm Hk. unfold method_bind. rewrite Hm.
  destruct r as [[a | e |] log]; simpl; try done.
  rewrite Hk. by destruct (k' a).
Qed.

Lemma systems_size_bind {B} (k : nat -> Method B) (self : @NArySystem UnitSystem) :
  (size <~ systems_size ;; k size) self = k (length (systems_ self)) self.
Proof.
  unfold method_bind, systems_size, ret. simpl.
  by destruct (k _ self) as [[[o log] self'] |].
Qed.

(** A loop whose body leaves the aggregate as it is runs as many turns as
    there are units left, and leaves the aggregate as it is. *)
Lemma for_systems_unchanged {S} (body : nat -> S -> Method S) (pure : nat -> S -> M S)
    (self : @NArySystem UnitSystem) :
  (forall i s, body i s self = Some (pure i s, self)) ->
  forall steps fuel i s,
  i + steps = length (systems_ self) -> steps < fuel ->
  for_systems fuel i body s self = Some (for_range i steps pure s, self).
Proof.
  intros Hbody. induction steps as [| k IH]; intros fuel i s Hi Hfuel;
    (destruct fuel as [| fuel]; [lia |]); cbn [for_systems for_range];
    rewrite systems_size_bind.
  - rewrite (proj2 (Nat.ltb_ge _ _)) by lia. done.
  - rewrite (proj2 (Nat.ltb_lt _ _)) by lia.
    apply method_bind_unchanged; [apply Hbody |].
    intros s'. apply IH; lia.
Qed.

Lemma dynamics_method_unchanged (self : @NArySystem UnitSystem) fuel time state input :
  length (systems_ self) < fuel ->
  dynamics_method fuel time state input self
  = Some (dynamics self time state input, self).
Proof.
  intros Hfuel. unfold dynamics_method, dynamics. cbv zeta.
  rewrite systems_size_bind. destruct (count_differs state _); [done |].
  rewrite systems_size_bind. destruct (count_differs input _); [done |].
  rewrite systems_size_bind. apply for_systems_unchanged; [| lia | done].
  intros i xdot.
  do 4 (apply method_bind_unchanged; [done | intros ?]). done.
Qed.

Lemma output_method_unchanged (self : @NArySystem UnitSystem) fuel time state input :
  length (systems_ self) < fuel ->
  output_method fuel time state input self
  = Some (output self time state input, self).
Proof.
  intros Hfuel. unfold output_method, output. cbv zeta.
  rewrite systems_size_bind. destruct (count_differs state _); [done |].
  rewrite systems_size_bind. destruct (count_differs input _); [done |].
  rewrite systems_size_bind. apply for_systems_unchanged; [| lia | done].
  intros i y.
  do 4 (apply method_bind_unchanged; [done | intros ?]). done.
Qed.

Lemma flag_method_unchanged (flag : UnitSystem -> bool) (self : @NArySystem UnitSystem) :
  ((size <~ systems_size ;;
    if (0 <? size)%nat then system <~ systems_at 0 ;; method_ret (flag system)
    else method_ret false) : Method bool) self
  = Some (lift (if (0 <? length (systems_ self))%nat then
                  match at_index (E := E) (systems_ self) 0 with
                  | Returns system => Returns (flag system)
                  | Throws e => Throws e
                  | Violation => Violation
                  end
                else Returns false), self).
Proof.
  rewrite systems_size_bind. destruct (0 <? _)%nat; [| done].
  unfold method_bind, systems_at, lift. by destruct (at_index _ 0).
Qed.

Lemma perform_query (self : @NArySystem UnitSystem) fuel
    (q : @request Scalar StateV InputV UnitSystem) :
  length (systems_ self) < fuel ->
  (forall system, q <> call_addSystem system) ->
  perform fuel q self = Some (answer self q, self).
Proof.
  intros Hfuel Hq. destruct q; simpl; unfold replying.
  - by destruct (Hq system).
  - by rewrite dynamics_method_unchanged.
  - by rewrite output_method_unchanged.
  - unfold isTimeVarying_method, isTimeVarying. by rewrite flag_method_unchanged.
  - unfold isDirectFeedthrough_method, isDirectFeedthrough.
    by rewrite flag_method_unchanged.
  - unfold getNumStates_method. by rewrite systems_size_bind.
  - unfold getNumInputs_method. by rewrite systems_size_bind.
  - unfold getNumOutputs_method. by rewrite systems_size_bind.
Qed.

Lemma perform_all_registered fuel (qs : list (@request Scalar StateV InputV UnitSystem)) :
  forall self : @NArySystem UnitSystem,
  length (systems_ self) + length (registered qs) < fuel ->
  exists replies final,
    perform_all fuel qs self = Some (replies, final) /\
    length replies = length qs /\
    systems_ final = systems_ self ++ registered qs.
Proof.
  induction qs as [| q qs IH]; intros self Hfuel.
  - exists [], self. by rewrite app_nil_r.
  - assert ((exists system, q = call_addSystem system) \/
            (forall system, q <> call_addSystem system)) as [Hadd | Hq]
      by (destruct q; [left; by eexists | right; done ..]).
    + destruct Hadd as [system ->]. cbn [perform_all perform].
      unfold replying, addSystem_method, systems_push_back.
      destruct (IH {| systems_ := systems_ self ++ [system] |})
        as (replies & final & -> & Hlen & Hfinal).
      { simpl in *. rewrite length_app. simpl. lia. }
      exists (reply_void :: replies), final. repeat split; [simpl; lia |].
      rewrite Hfinal. simpl. by rewrite <- app_assoc.
    + assert (registered (q :: qs) = registered qs) as Hsame
        by (destruct q; try done; by destruct (Hq system)).
      rewrite Hsame in *. cbn [perform_all].
      rewrite perform_query by (done || lia).
      destruct (IH self Hfuel) as (replies & final & -> & Hlen & Hfinal).
      exists (answer self q :: replies), final. repeat split; [simpl; lia | done].
Qed.

Lemma perform_all_queries fuel (qs : list (@request Scalar StateV InputV UnitSystem))
    (self : @NArySystem UnitSystem) :
  length (systems_ self) < fuel -> registered qs = [] ->
  perform_all fuel qs self = Some (map (answer self) qs, self).
Proof.
  intros Hfuel. induction qs as [| q qs IH]; intros Hnone; [done |].
  assert (forall system, q <> call_addSystem system) as Hq
    by (intros system ->; done).
  assert (registered qs = []) as Hrest
    by (destruct q; try done; by destruct (Hq system)).
  cbn [perform_all]. by rewrite perform_query, IH.
Qed.

(** C10. With the member functions as operations on the object: [dynamics]
    and [output], also when they fail, the two flag queries and the three
    row queries give back the aggregate as they got it, with the outcome the
    aggregate's value determines; [addSystem] gives back the aggregate with
    its unit appended to the sequence and nothing else changed. After any
    sequence of calls the sequence of unit systems is the one before followed
    by the units the calls registered, and in a sequence of calls that
    registers nothing the aggregate stays the same and every call gets the
    answer of the aggregate as it was at the start. *)
Theorem only_addSystem_modifies (self : @NArySystem UnitSystem) (fuel : nat) :
  length (systems_ self) < fuel ->
  (forall time state input,
     dynamics_method fuel time state input self
     = Some (dynamics self time state input, self) /\
     output_method fuel time state input self
     = Some (output self time state input, self))
  /\
  (isTimeVarying_method self = Some (lift (isTimeVarying self), self) /\
   isDirectFeedthrough_method self = Some (lift (isDirectFeedthrough self), self) /\
   getNumStates_method self = Some (ret (getNumStates self), self) /\
   getNumInputs_method self = Some (ret (getNumInputs self), self) /\
   getNumOutputs_method self = Some (ret (getNumOutputs self), self))
  /\
  (forall system,
     (addSystem_method system : Method unit) self
     = Some (ret tt, addSystem self system) /\
     systems_ (addSystem self system) = systems_ self ++ [system])
  /\
  (forall qs : list (@request Scalar StateV InputV UnitSystem),
     length (systems_ self) + length (registered qs) < fuel ->
     exists replies final,
       perform_all fuel qs self = Some (replies, final) /\
       length replies = length qs /\
       systems_ final = systems_ self ++ registered qs)
  /\
  (forall qs : list (@request Scalar StateV InputV UnitSystem),
     registered qs = [] ->
     perform_all fuel qs self = Some (map (answer self) qs, self)).
Proof.
  intros Hfuel. split; [| split; [| split; [| split]]].
  - intros time state input.
    by rewrite dynamics_method_unchanged, output_method_unchanged.
  - unfold isTimeVarying_method, isDirectFeedthrough_method,
      isTimeVarying, isDirectFeedthrough.
    rewrite !flag_method_unchanged.
    unfold getNumStates_method, getNumInputs_method, getNumOutputs_method.
    by rewrite !systems_size_bind.
  - done.
  - intros qs. apply perform_all_registered.
  - intros qs. by apply perform_all_queries.
Qed.

End Theory.

(** * The aggregate at work *)

(** C8. Three units with the dynamics x' = -x + u, the composite state
    [1.0, 2.0, 3.0] and the composite input [0.0, 0.0, 0.0]: at every time
    [dynamics] returns [-1.0, -2.0, -3.0], having invoked each unit once on
    its own slices. *)
Theorem three_decays (time : float) :
  dynamics (addSystem (addSystem (addSystem NArySystem_new decay) decay) decay)
    time (Sized [1; 2; 3]%float) (Sized [0; 0; 0]%float)
  = (Returns (Sized [-1; -2; -3]%float),
     [dynamics_of decay time 1%float 0%float;
      dynamics_of decay time 2%float 0%float;
      dynamics_of decay time 3%float 0%float]).
Proof. reflexivity. Qed.

(** ** The theorems at an aggregate of two bounded units *)

Lemma dynamics_output_per_unit_witness :
  count_accepted (Sized [3; 50]%Z) (length (systems_ narrow_wide)) /\
  count_accepted (Sized [1; 2]%Z) (length (systems_ narrow_wide)) /\
  units_return unit_dynamics narrow_wide 7%Z (Sized [3; 50]%Z) (Sized [1; 2]%Z) /\
  units_return unit_output narrow_wide 7%Z (Sized [3; 50]%Z) (Sized [1; 2]%Z) /\
  (exists xdot log,
     dynamics narrow_wide 7%Z (Sized [3; 50]%Z) (Sized [1; 2]%Z) = (Returns xdot, log) /\
     count xdot = 2%Z /\ length log = 2) /\
  (exists y log,
     output narrow_wide 7%Z (Sized [3; 50]%Z) (Sized [1; 2]%Z) = (Returns y, log) /\
     count y = 2%Z /\ length log = 2).
Proof.
  assert (count_accepted (Sized [3; 50]%Z) (length (systems_ narrow_wide))) as Hstate
    by (right; reflexivity).
  assert (count_accepted (Sized [1; 2]%Z) (length (systems_ narrow_wide))) as Hinput
    by (right; reflexivity).
  assert (units_return unit_dynamics narrow_wide 7%Z (Sized [3; 50]%Z) (Sized [1; 2]%Z))
    as Hdynamics.
  { intros [| [| i]] system; simpl; intros [= <-].
    - exists 3%Z, 1%Z, (-2)%Z. repeat split; reflexivity.
    - exists 50%Z, 2%Z, (-48)%Z. repeat split; reflexivity. }
  assert (units_return unit_output narrow_wide 7%Z (Sized [3; 50]%Z) (Sized [1; 2]%Z))
    as Houtput.
  { intros [| [| i]] system; simpl; intros [= <-].
    - exists 3%Z, 1%Z, 3%Z. repeat split; reflexivity.
    - exists 50%Z, 2%Z, 52%Z. repeat split; reflexivity. }
  destruct (dynamics_output_per_unit narrow_wide 7%Z (Sized [3; 50]%Z) (Sized [1; 2]%Z)
              Hstate Hinput) as (_ & Hd & _ & Ho).
  destruct (Hd Hdynamics) as (xdot & log & Heq & Hcount & Hlen & _).
  destruct (Ho Houtput) as (y & log' & Heq' & Hcount' & Hlen' & _).
  refine (conj Hstate (conj Hinput (conj Hdynamics (conj Houtput (conj _ _))))).
  - exists xdot, log. exact (conj Heq (conj Hcount Hlen)).
  - exists y, log'. exact (conj Heq' (conj Hcount' Hlen')).
Defined.

Lemma units_independent_witness :
  (forall j, j <> 1 ->
     get (E := Z) (Sized [3; 60]%Z) j = get (Sized [3; 50]%Z) j /\
     get (E := Z) (Sized [1; 5]%Z) j = get (Sized [1; 2]%Z) j) /\
  (exists xdot',
     fst (dynamics narrow_wide 7%Z (Sized [3; 60]%Z) (Sized [1; 5]%Z)) = Returns xdot' /\
     set (E := Z) (Sized [-2; -48]%Z) 1 (-55)%Z = Returns xdot' /\
     forall j, j <> 1 -> get (E := Z) xdot' j = get (Sized [-2; -48]%Z) j) /\
  (exists y',
     fst (output narrow_wide 7%Z (Sized [3; 60]%Z) (Sized [1; 5]%Z)) = Returns y' /\
     set (E := Z) (Sized [3; 52]%Z) 1 65%Z = Returns y' /\
     forall j, j <> 1 -> get (E := Z) y' j = get (Sized [3; 52]%Z) j).
Proof.
  assert (forall j, j <> 1 ->
            get (E := Z) (Sized [3; 60]%Z) j = get (Sized [3; 50]%Z) j /\
            get (E := Z) (Sized [1; 5]%Z) j = get (Sized [1; 2]%Z) j) as Hsame.
  { intros [| [| j]] Hj; [split; reflexivity | destruct (Hj eq_refl) | split; reflexivity]. }
  split; [exact Hsame |].
  destruct (units_independent narrow_wide 7%Z (Sized [3; 50]%Z) (Sized [1; 2]%Z)
              (Sized [3; 60]%Z) (Sized [1; 5]%Z) 1 Hsame) as (_ & _ & Hreplace).
  destruct (Hreplace wide 60%Z 5%Z) as [Hd Ho];
    [reflexivity | right; reflexivity | right; reflexivity | reflexivity | reflexivity |].
  split.
  - apply (Hd (Sized [-2; -48]%Z) (-55)%Z); reflexivity.
  - apply (Ho (Sized [3; 52]%Z) 65%Z); reflexivity.
Defined.

Lemma unit_failure_propagates_witness :
  dynamics_of narrow 7%Z 30%Z 1%Z
    ∈ snd (dynamics narrow_wide 7%Z (Sized [30; 50]%Z) (Sized [1; 2]%Z)) /\
  unit_dynamics narrow 7%Z 30%Z 1%Z = Throws (other_exception 30%Z) /\
  fst (dynamics narrow_wide 7%Z (Sized [30; 50]%Z) (Sized [1; 2]%Z))
  = Throws (other_exception 30%Z) /\
  output_of wide 7%Z 5000%Z 2%Z
    ∈ snd (output narrow_wide 7%Z (Sized [3; 5000]%Z) (Sized [1; 2]%Z)) /\
  unit_output wide 7%Z 5000%Z 2%Z = Throws (other_exception 5000%Z) /\
  fst (output narrow_wide 7%Z (Sized [3; 5000]%Z) (Sized [1; 2]%Z))
  = Throws (other_exception 5000%Z).
Proof.
  assert (dynamics_of narrow 7%Z 30%Z 1%Z
            ∈ snd (dynamics narrow_wide 7%Z (Sized [30; 50]%Z) (Sized [1; 2]%Z))) as Hd
    by (apply list_elem_of_In; simpl; left; reflexivity).
  assert (output_of wide 7%Z 5000%Z 2%Z
            ∈ snd (output narrow_wide 7%Z (Sized [3; 5000]%Z) (Sized [1; 2]%Z))) as Ho
    by (apply list_elem_of_In; simpl; right; left; reflexivity).
  destruct (unit_failure_propagates narrow_wide 7%Z (Sized [30; 50]%Z) (Sized [1; 2]%Z)
              narrow 30%Z 1%Z (other_exception 30%Z)) as [Hdynamics _].
  destruct (unit_failure_propagates narrow_wide 7%Z (Sized [3; 5000]%Z) (Sized [1; 2]%Z)
              wide 5000%Z 2%Z (other_exception 5000%Z)) as [_ Houtput].
  destruct (Hdynamics Hd eq_refl) as [Hthrown _].
  destruct (Houtput Ho eq_refl) as [Hthrown' _].
  exact (conj Hd (conj eq_refl (conj Hthrown (conj Ho (conj eq_refl Hthrown'))))).
Defined.

Lemma state_check_first_witness :
  count_rejected (Sized [3]%Z) (length (systems_ narrow_wide)) /\
  count_rejected (Sized [1; 2; 3]%Z) (length (systems_ narrow_wide)) /\
  dynamics narrow_wide 7%Z (Sized [3]%Z) (Sized [1; 2; 3]%Z)
  = (Throws (invalid_argument state_count_message), []) /\
  output narrow_wide 7%Z (Sized [3]%Z) (Sized [1; 2; 3]%Z)
  = (Throws (invalid_argument state_count_message), []).
Proof.
  assert (count_rejected (Sized [3]%Z) (length (systems_ narrow_wide))) as Hstate
    by (split; simpl; lia).
  assert (count_rejected (Sized [1; 2; 3]%Z) (length (systems_ narrow_wide))) as Hinput
    by (split; simpl; lia).
  destruct (state_check_first narrow_wide 7%Z (Sized [3]%Z) (Sized [1; 2; 3]%Z))
    as [Hboth _].
  destruct (Hboth Hstate Hinput) as (Hd & Ho & _).
  exact (conj Hstate (conj Hinput (conj Hd Ho))).
Defined.

Lemma addSystem_order_witness :
  snd (dynamics narrow_wide_narrow 7%Z (Sized [3; 50; 4]%Z) (Sized [1; 2; 3]%Z)) !! 1
  = Some (dynamics_of wide 7%Z 50%Z 2%Z) /\
  snd (output narrow_wide_narrow 7%Z (Sized [3; 50; 4]%Z) (Sized [1; 2; 3]%Z)) !! 1
  = Some (output_of wide 7%Z 50%Z 2%Z) /\
  (exists xdot d,
     fst (dynamics narrow_wide_narrow 7%Z (Sized [3; 50; 4]%Z) (Sized [1; 2; 3]%Z))
     = Returns xdot /\
     unit_dynamics wide 7%Z 50%Z 2%Z = Returns d /\ get (E := Z) xdot 1 = Returns d) /\
  (exists y d,
     fst (output narrow_wide_narrow 7%Z (Sized [3; 50; 4]%Z) (Sized [1; 2; 3]%Z))
     = Returns y /\
     unit_output wide 7%Z 50%Z 2%Z = Returns d /\ get (E := Z) y 1 = Returns d).
Proof.
  assert (units_return unit_dynamics narrow_wide_narrow 7%Z
            (Sized [3; 50; 4]%Z) (Sized [1; 2; 3]%Z)) as Hdynamics.
  { intros [| [| [| i]]] system; simpl; intros [= <-].
    - exists 3%Z, 1%Z, (-2)%Z. repeat split; reflexivity.
    - exists 50%Z, 2%Z, (-48)%Z. repeat split; reflexivity.
    - exists 4%Z, 3%Z, (-1)%Z. repeat split; reflexivity. }
  assert (units_return unit_output narrow_wide_narrow 7%Z
            (Sized [3; 50; 4]%Z) (Sized [1; 2; 3]%Z)) as Houtput.
  { intros [| [| [| i]]] system; simpl; intros [= <-].
    - exists 3%Z, 1%Z, 3%Z. repeat split; reflexivity.
    - exists 50%Z, 2%Z, 52%Z. repeat split; reflexivity.
    - exists 4%Z, 3%Z, 4%Z. repeat split; reflexivity. }
  destruct (addSystem_order (Scalar := Z) (StateV := Z) (InputV := Z) (E := Z))
    as (_ & _ & _ & Hslices).
  destruct (Hslices narrow wide [narrow] 7%Z (Sized [3; 50; 4]%Z) (Sized [1; 2; 3]%Z)
              3%Z 1%Z 50%Z 2%Z) as (Hcall & Hcall' & Hvalue & Hvalue');
    [right; reflexivity | right; reflexivity
    | reflexivity | reflexivity | reflexivity | reflexivity |].
  exact (conj (Hcall (-2)%Z eq_refl)
           (conj (Hcall' 3%Z eq_refl) (conj (Hvalue Hdynamics) (Hvalue' Houtput)))).
Defined.

Lemma count_validation_witness :
  (count (Unsized [3; 50; 8]%Z) < 0)%Z /\
  ~ shape_mismatch (dynamics narrow_wide 7%Z (Unsized [3; 50; 8]%Z) (Sized [1; 2]%Z))
      state_count_message /\
  dynamics narrow_wide 7%Z (Unsized [3; 50; 8]%Z) (Sized [1; 2]%Z)
  = per_index unit_dynamics dynamics_of narrow_wide 7%Z
      (Unsized [3; 50; 8]%Z) (Sized [1; 2]%Z) /\
  shape_mismatch (output narrow_wide 7%Z (Unsized [3; 50; 8]%Z) (Sized [1; 2; 3]%Z))
    input_count_message.
Proof.
  assert (count (Unsized [3; 50; 8]%Z) < 0)%Z as Hunknown by reflexivity.
  destruct (count_validation narrow_wide 7%Z (Unsized [3; 50; 8]%Z) (Sized [1; 2]%Z))
    as [(_ & _ & _ & Hskip & _ & Hloop) _].
  destruct (count_validation narrow_wide 7%Z (Unsized [3; 50; 8]%Z) (Sized [1; 2; 3]%Z))
    as [_ (_ & _ & Hinput & _)].
  refine (conj Hunknown (conj (Hskip Hunknown) (conj _ _))).
  - apply Hloop; [left; exact Hunknown | right; reflexivity].
  - apply Hinput. split.
    + intros [Hle _]. simpl in Hle. lia.
    + split; simpl; lia.
Defined.

(** * Further properties of the loop and of registration *)

Section Further.

Context {Scalar StateV InputV OutputV E UnitSystem : Type}.
Context `{!@System Scalar StateV InputV OutputV E UnitSystem}.
Context `{!UnitVector StateV} `{!UnitVector InputV} `{!UnitVector OutputV}.

Local Notation M := (@M Scalar StateV InputV E UnitSystem).
Local Notation outcome := (@outcome E).
Local Notation get := (get (E := E)).
Local Notation op_type V := (UnitSystem -> Scalar -> StateV -> InputV -> outcome V).
Local Notation entry_type :=
  (UnitSystem -> Scalar -> StateV -> InputV -> @invocation Scalar StateV InputV UnitSystem).

(** ** More on the turns *)

Lemma collect_ext_range {V} (turn turn' : nat -> M V) steps : forall i,
  (forall j, i <= j < i + steps -> turn j = turn' j) ->
  collect turn i steps = collect turn' i steps.
Proof.
  induction steps as [| k IH]; intros i Hsame; cbn [collect]; [done |].
  rewrite (Hsame i) by lia. apply bind_ext. intros v.
  rewrite (IH (Datatypes.S i)); [done |]. intros j Hj. apply Hsame. lia.
Qed.

Lemma collect_step {V} (turn : nat -> M V) steps i :
  collect turn i (Datatypes.S steps)
  = (v <- turn i ;; vs <- collect turn (Datatypes.S i) steps ;; ret (v :: vs)).
Proof. reflexivity. Qed.

Lemma collect_snoc {V} (turn : nat -> M V) steps : forall i,
  collect turn i (Datatypes.S steps)
  = (vs <- collect turn i steps ;; v <- turn (i + steps) ;; ret (vs ++ [v])).
Proof.
  induction steps as [| k IH]; intros i.
  - cbn [collect]. rewrite bind_ret, Nat.add_0_r. apply bind_ext. intros v.
    by rewrite bind_ret.
  - rewrite (collect_step turn (Datatypes.S k) i), (collect_step turn k i).
    rewrite bind_assoc. apply bind_ext. intros v.
    rewrite IH, !bind_assoc. apply bind_ext. intros vs.
    rewrite bind_ret, bind_assoc.
    replace (Datatypes.S i + k) with (i + Datatypes.S k) by lia.
    apply bind_ext. intros w. by rewrite !bind_ret.
Qed.

Lemma collect_Violation {V} (turn : nat -> M V) steps : forall i,
  fst (collect turn i steps) = Violation ->
  exists j, j < steps /\ fst (turn (i + j)) = Violation.
Proof.
  induction steps as [| k IH]; intros i; cbn [collect]; [done |].
  rewrite fst_bind. destruct (fst (turn i)) as [v | e |] eqn:Hturn.
  - rewrite fst_bind. intros Hrest.
    destruct (IH (Datatypes.S i)) as (j & Hj & Hviolation).
    { by destruct (fst (collect turn (Datatypes.S i) k)). }
    exists (Datatypes.S j). split; [lia |].
    by replace (i + Datatypes.S j) with (Datatypes.S i + j) by lia.
  - done.
  - intros _. exists 0. split; [lia |]. by rewrite Nat.add_0_r.
Qed.

Lemma collect_first_Throws {V} (turn : nat -> M V) e k : forall steps i,
  k < steps ->
  (forall j, j < k ->
     (exists v, fst (turn (i + j)) = Returns v) /\ length (snd (turn (i + j))) = 1) ->
  fst (turn (i + k)) = Throws e -> length (snd (turn (i + k))) = 1 ->
  fst (collect turn i steps) = Throws e /\
  length (snd (collect turn i steps)) = Datatypes.S k.
Proof.
  induction k as [| k IH]; intros steps i Hk Hbefore Hthrows Hlog;
    (destruct steps as [| steps]; [lia |]); cbn [collect];
    rewrite fst_bind, snd_bind.
  - rewrite Nat.add_0_r in Hthrows, Hlog. rewrite Hthrows, app_nil_r. done.
  - destruct (Hbefore 0) as [[v Hv] Hlen]; [lia |].
    rewrite Nat.add_0_r in Hv, Hlen. rewrite Hv, fst_bind, snd_bind_ret.
    destruct (IH steps (Datatypes.S i)) as [Hfst Hsnd].
    + lia.
    + intros j Hj. replace (Datatypes.S i + j) with (i + Datatypes.S j) by lia.
      apply Hbefore. lia.
    + by replace (Datatypes.S i + k) with (i + Datatypes.S k) by lia.
    + by replace (Datatypes.S i + k) with (i + Datatypes.S k) by lia.
    + rewrite Hfst, length_app, Hlen, Hsnd. done.
Qed.

(** ** More on the loop *)

Section FurtherLoop.

Context {V : Type} (op : op_type V) (entry : entry_type).
Context (self : @NArySystem UnitSystem) (time : Scalar).
Context (state : NAryState StateV) (input : NAryState InputV).

Lemma per_index_log_bound :
  length (snd (per_index op entry self time state input)) <= length (systems_ self).
Proof.
  destruct (decide (length (snd (per_index op entry self time state input))
                    <= length (systems_ self))) as [| Hlong]; [done |].
  destruct (lookup_lt_is_Some_2 (snd (per_index op entry self time state input))
              (length (systems_ self))) as [call Hcall]; [lia |].
  apply per_index_log_lookup in Hcall as (s & _ & _ & Hs & _).
  apply lookup_lt_Some in Hs. lia.
Qed.

Lemma per_index_first_Throws k system x u e :
  systems_ self !! k = Some system ->
  get state k = Returns x -> get input k = Returns u ->
  (forall j s, j < k -> systems_ self !! j = Some s ->
     exists xj uj d, get state j = Returns xj /\ get input j = Returns uj /\
       op s time xj uj = Returns d) ->
  op system time x u = Throws e ->
  fst (per_index op entry self time state input) = Throws e /\
  length (snd (per_index op entry self time state input)) = Datatypes.S k /\
  snd (per_index op entry self time state input) !! k = Some (entry system time x u).
Proof.
  intros Hs Hx Hu Hbefore Hop.
  pose proof (lookup_lt_Some _ _ _ Hs) as Hk.
  pose proof (unit_at_reached op entry self time state input k system x u Hs Hx Hu)
    as Hturn.
  destruct (collect_first_Throws (unit_at op entry self time state input) e k
              (length (systems_ self)) 0) as [Hfst Hlen]; try done.
  - intros j Hj. simpl.
    destruct (lookup_lt_is_Some_2 (systems_ self) j) as [s Hsj]; [lia |].
    destruct (Hbefore j s Hj Hsj) as (xj & uj & d & Hxj & Huj & Hd).
    rewrite (unit_at_reached op entry self time state input j s xj uj) by done.
    split; [by exists d | done].
  - simpl. by rewrite Hturn.
  - simpl. by rewrite Hturn.
  - rewrite per_index_fst, per_index_snd, Hfst. repeat split; try done.
    destruct (lookup_lt_is_Some_2
                (snd (collect (unit_at op entry self time state input) 0
                        (length (systems_ self)))) k) as [call Hcall]; [lia |].
    rewrite Hcall. f_equal.
    apply (collect_log_lookup _ _ (unit_at_one_entry op entry self time state input))
      in Hcall as [_ Hlog].
    simpl in Hlog. rewrite Hturn in Hlog. simpl in Hlog. congruence.
Qed.

Lemma per_index_Violation :
  fst (per_index op entry self time state input) = Violation ->
  exists j system, systems_ self !! j = Some system /\
    (get state j = Violation \/ get input j = Violation \/
     exists x u, get state j = Returns x /\ get input j = Returns u /\
       op system time x u = Violation).
Proof.
  rewrite per_index_fst. intros Hfst.
  destruct (collect_Violation (unit_at op entry self time state input)
              (length (systems_ self)) 0) as (j & Hj & Hturn).
  { by destruct (fst (collect _ _ _)). }
  simpl in Hturn.
  destruct (lookup_lt_is_Some_2 (systems_ self) j Hj) as [s Hs].
  exists j, s. split; [done |].
  destruct (get state j) as [x | e |] eqn:Hx;
    [| by apply get_not_Throws in Hx | by left].
  destruct (get input j) as [u | e |] eqn:Hu;
    [| by apply get_not_Throws in Hu | by right; left].
  right; right. exists x, u.
  rewrite (unit_at_reached op entry self time state input j s x u) in Hturn by done.
  done.
Qed.

End FurtherLoop.

Lemma get_known_count {W} (v : NAryState W) size j :
  count v = Z.of_nat size -> j < size -> get v j <> Violation.
Proof.
  destruct v as [units | slices]; simpl; [| lia].
  intros Hlen Hj. rewrite get_slots. simpl.
  destruct (lookup_lt_is_Some_2 units j) as [x ->]; [lia | done].
Qed.

(** Registration and the loop: the loop over one more unit, on composite
    vectors with one more slice, is the loop over the units before followed
    by the call of the new unit on the new slices. *)
Lemma per_index_addSystem {V} (op : op_type V) (entry : entry_type)
    (self : @NArySystem UnitSystem) unit time xs us x u :
  length xs = length (systems_ self) -> length us = length (systems_ self) ->
  per_index op entry (addSystem self unit) time (Sized (xs ++ [x])) (Sized (us ++ [u]))
  = (r <- per_index op entry self time (Sized xs) (Sized us) ;;
     d <- invoke (entry unit time x u) (op unit time x u) ;;
     ret (Sized (slots r ++ [d]))).
Proof.
  intros Hxs Hus. unfold per_index.
  replace (length (systems_ (addSystem self unit)))
    with (Datatypes.S (length (systems_ self)))
    by (simpl; rewrite length_app; simpl; lia).
  rewrite collect_snoc, !bind_assoc.
  rewrite (collect_ext_range _ (unit_at op entry self time (Sized xs) (Sized us))).
  - apply bind_ext. intros vs. rewrite bind_ret, bind_assoc, Nat.add_0_l.
    rewrite (unit_at_reached op entry (addSystem self unit) time
               (Sized (xs ++ [x])) (Sized (us ++ [u]))
               (length (systems_ self)) unit x u).
    + apply bind_ext. intros d. by rewrite bind_ret.
    + simpl. by rewrite lookup_app_r, Nat.sub_diag.
    + apply get_Sized. rewrite <- Hxs. by rewrite lookup_app_r, Nat.sub_diag.
    + apply get_Sized. rewrite <- Hus. by rewrite lookup_app_r, Nat.sub_diag.
  - intros j Hj. unfold unit_at, at_index. rewrite !get_slots. simpl.
    by rewrite !lookup_app_l by lia.
Qed.

(** ** The empty aggregate *)

(** X1. On an aggregate without unit systems, [dynamics] and [output] return
    the composite vector without slots, and invoke nothing, for every state
    and input whose counts are unknown or zero. *)
Theorem empty_aggregate_returns_empty (time : Scalar)
    (state : NAryState StateV) (input : NAryState InputV) :
  count_accepted state 0 -> count_accepted input 0 ->
  dynamics (@NArySystem_new UnitSystem) time state input = (Returns (Sized []), []) /\
  output (@NArySystem_new UnitSystem) time state input = (Returns (Sized []), []).
Proof.
  intros Hstate Hinput.
  by rewrite dynamics_accepted, output_accepted.
Qed.

(** ** Which units are invoked *)

(** X2. In every call of [dynamics], failed or not, the entry at position
    [j] of the log is the call of the [dynamics] of the unit at index [j], at
    the time of the call and on the slices at index [j] of its state and
    input; there are never more entries than unit systems. Likewise for
    [output], whose log holds calls of [output] only. *)
Theorem invocations_follow_indices self time state input :
  (length (snd (dynamics self time state input)) <= length (systems_ self) /\
   forall j call, snd (dynamics self time state input) !! j = Some call ->
     exists system x u, systems_ self !! j = Some system /\
       get state j = Returns x /\ get input j = Returns u /\
       call = dynamics_of system time x u)
  /\
  (length (snd (output self time state input)) <= length (systems_ self) /\
   forall j call, snd (output self time state input) !! j = Some call ->
     exists system x u, systems_ self !! j = Some system /\
       get state j = Returns x /\ get input j = Returns u /\
       call = output_of system time x u).
Proof.
  split.
  - destruct (dynamics_cases self time state input) as [[Hlog _] | Heq].
    + rewrite Hlog. split; [simpl; lia | by intros j call].
    + rewrite Heq. split; [apply per_index_log_bound | apply per_index_log_lookup].
  - destruct (output_cases self time state input) as [[Hlog _] | Heq].
    + rewrite Hlog. split; [simpl; lia | by intros j call].
    + rewrite Heq. split; [apply per_index_log_bound | apply per_index_log_lookup].
Qed.

(** X3. When the counts pass the checks, the units before index [k] return
    on their slices and the unit at index [k] throws [e] on its own,
    [dynamics] throws [e], whatever the units after [k] would do: they are
    not invoked, the log has [k + 1] entries and the last one is the call
    that threw. Likewise for [output]. *)
Theorem lowest_failing_unit_reported self time state input k system x u e :
  count_accepted state (length (systems_ self)) ->
  count_accepted input (length (systems_ self)) ->
  systems_ self !! k = Some system ->
  get state k = Returns x -> get input k = Returns u ->
  ((forall j s, j < k -> systems_ self !! j = Some s ->
      exists xj uj d, get state j = Returns xj /\ get input j = Returns uj /\
        unit_dynamics s time xj uj = Returns d) ->
   unit_dynamics system time x u = Throws e ->
   fst (dynamics self time state input) = Throws e /\
   length (snd (dynamics self time state input)) = Datatypes.S k /\
   snd (dynamics self time state input) !! k = Some (dynamics_of system time x u))
  /\
  ((forall j s, j < k -> systems_ self !! j = Some s ->
      exists xj uj d, get state j = Returns xj /\ get input j = Returns uj /\
        unit_output s time xj uj = Returns d) ->
   unit_output system time x u = Throws e ->
   fst (output self time state input) = Throws e /\
   length (snd (output self time state input)) = Datatypes.S k /\
   snd (output self time state input) !! k = Some (output_of system time x u)).
Proof.
  intros Hstate Hinput Hs Hx Hu.
  rewrite dynamics_accepted, output_accepted by done.
  split; intros Hbefore Hop; by apply per_index_first_Throws.
Qed.

(** ** Indices stay in range *)

(** X4. A [dynamics] or [output] that ends in a violation has found a slice
    of the state or of the input missing at the index of a unit, or the
    unit's own operation ended in one: [systems_[i]] and the store into the
    result are always in range. With a state and an input whose counts equal
    the number of unit systems no slice is missing. *)
Theorem violation_only_from_slices_or_units self time state input :
  (fst (dynamics self time state input) = Violation ->
   exists j system, systems_ self !! j = Some system /\
     (get state j = Violation \/ get input j = Violation \/
      exists x u, get state j = Returns x /\ get input j = Returns u /\
        unit_dynamics system time x u = Violation))
  /\
  (fst (output self time state input) = Violation ->
   exists j system, systems_ self !! j = Some system /\
     (get state j = Violation \/ get input j = Violation \/
      exists x u, get state j = Returns x /\ get input j = Returns u /\
        unit_output system time x u = Violation))
  /\
  (count state = Z.of_nat (length (systems_ self)) ->
   count input = Z.of_nat (length (systems_ self)) ->
   (fst (dynamics self time state input) = Violation ->
    exists j system x u, systems_ self !! j = Some system /\
      get state j = Returns x /\ get input j = Returns u /\
      unit_dynamics system time x u = Violation) /\
   (fst (output self time state input) = Violation ->
    exists j system x u, systems_ self !! j = Some system /\
      get state j = Returns x /\ get input j = Returns u /\
      unit_output system time x u = Violation)).
Proof.
  split; [| split].
  - intros Hfst.
    destruct (dynamics_cases self time state input) as [(_ & _ & what & Hthrows) | Heq];
      [congruence |].
    rewrite Heq in Hfst. by apply per_index_Violation in Hfst.
  - intros Hfst.
    destruct (output_cases self time state input) as [(_ & _ & what & Hthrows) | Heq];
      [congruence |].
    rewrite Heq in Hfst. by apply per_index_Violation in Hfst.
  - intros Hstate Hinput.
    rewrite dynamics_accepted, output_accepted by (by right).
    split; intros (j & s & Hs & Hwhere)%per_index_Violation;
      pose proof (lookup_lt_Some _ _ _ Hs) as Hj;
      (destruct Hwhere as [Hx | [Hu | (x & u & Hx & Hu & Hop)]];
        [by apply get_known_count with (size := length (systems_ self)) in Hx
        | by apply get_known_count with (size := length (systems_ self)) in Hu
        | by exists j, s, x, u]).
Qed.

(** ** The result and its slots *)

(** X5. The loop stores into every slot of the vector it allocated: the
    result, and the log, do not depend on what a freshly allocated slot
    holds. *)
Theorem initial_slots_overwritten
    (fresh fresh' : UnitVector StateV) (fresh_out fresh_out' : UnitVector OutputV)
    self time state input :
  dynamics (state_vector := fresh) self time state input
  = dynamics (state_vector := fresh') self time state input
  /\
  output (output_vector := fresh_out) self time state input
  = output (output_vector := fresh_out') self time state input.
Proof. by rewrite !dynamics_unfold, !output_unfold. Qed.

(** X8. A composite vector that [dynamics] or [output] returns has as many
    slots as there are unit systems, which is the count of the state and of
    the input whenever theirs is known. *)
Theorem result_count_is_known_count self time state input :
  (forall xdot, fst (dynamics self time state input) = Returns xdot ->
     count xdot = Z.of_nat (length (systems_ self)) /\
     ((0 <= count state)%Z -> count xdot = count state) /\
     ((0 <= count input)%Z -> count xdot = count input))
  /\
  (forall y, fst (output self time state input) = Returns y ->
     count y = Z.of_nat (length (systems_ self)) /\
     ((0 <= count state)%Z -> count y = count state) /\
     ((0 <= count input)%Z -> count y = count input)).
Proof.
  split; intros r Hr.
  - rewrite dynamics_unfold in Hr.
    destruct (count_differs state _) eqn:Hs; [done |].
    destruct (count_differs input _) eqn:Hi; [done |].
    apply count_differs_false in Hs, Hi. apply per_index_Returns_count in Hr.
    unfold count_accepted in *. lia.
  - rewrite output_unfold in Hr.
    destruct (count_differs state _) eqn:Hs; [done |].
    destruct (count_differs input _) eqn:Hi; [done |].
    apply count_differs_false in Hs, Hi. apply per_index_Returns_count in Hr.
    unfold count_accepted in *. lia.
Qed.

(** ** Registration and evaluation *)

(** X6. Registering one more unit and giving the state and the input one
    more slice each: [dynamics] is [dynamics] of the aggregate before on the
    vectors before, followed by the call of the new unit on the new slices,
    whose value becomes the last slot; a failure before the new unit is the
    failure of the whole. Likewise for [output]. *)
Theorem addSystem_appends_unit (self : @NArySystem UnitSystem) unit time xs us x u :
  length xs = length (systems_ self) -> length us = length (systems_ self) ->
  dynamics (addSystem self unit) time (Sized (xs ++ [x])) (Sized (us ++ [u]))
  = (xdot <- dynamics self time (Sized xs) (Sized us) ;;
     d <- invoke (dynamics_of unit time x u) (unit_dynamics unit time x u) ;;
     ret (Sized (slots xdot ++ [d])))
  /\
  output (addSystem self unit) time (Sized (xs ++ [x])) (Sized (us ++ [u]))
  = (y <- output self time (Sized xs) (Sized us) ;;
     d <- invoke (output_of unit time x u) (unit_output unit time x u) ;;
     ret (Sized (slots y ++ [d]))).
Proof.
  intros Hxs Hus.
  assert (forall W (vs : list W) (v : W), length vs = length (systems_ self) ->
            count_accepted (Sized (vs ++ [v]))
              (length (systems_ (addSystem self unit)))) as Hmore.
  { intros W vs v Hvs. right. simpl. rewrite !length_app, Hvs. done. }
  assert (forall W (vs : list W), length vs = length (systems_ self) ->
            count_accepted (Sized vs) (length (systems_ self))) as Hbefore.
  { intros W vs Hvs. right. simpl. by rewrite Hvs. }
  rewrite (dynamics_accepted (addSystem self unit)), (dynamics_accepted self),
    (output_accepted (addSystem self unit)), (output_accepted self) by auto.
  split; by apply per_index_addSystem.
Qed.

(** ** The checks of the two evaluations *)

(** X7. [dynamics] and [output] check the counts alike: on the same state
    and input, one fails with a shape mismatch exactly when the other does,
    with the same message. *)
Theorem validation_shared self time state input what :
  shape_mismatch (dynamics self time state input) what <->
  shape_mismatch (output self time state input) what.
Proof.
  rewrite dynamics_unfold, output_unfold. unfold shape_mismatch, throw.
  destruct (count_differs state _); [split; by intros [= <-] |].
  destruct (count_differs input _); [split; by intros [= <-] |].
  split; intros Heq; exfalso;
    eapply per_index_Throws_log; rewrite Heq; done.
Qed.

End Further.

(** ** The further properties at aggregates of bounded units *)

Lemma empty_aggregate_returns_empty_witness :
  count_accepted (Unsized [3; 50]%Z) 0 /\
  count_accepted (Sized (@nil Z)) 0 /\
  dynamics (@NArySystem_new Bounded) 7%Z (Unsized [3; 50]%Z) (Sized [])
  = (Returns (Sized []), []).
Proof.
  assert (count_accepted (Unsized [3; 50]%Z) 0) as Hstate by (left; reflexivity).
  assert (count_accepted (Sized (@nil Z)) 0) as Hinput by (right; reflexivity).
  destruct (empty_aggregate_returns_empty (UnitSystem := Bounded) 7%Z
              (Unsized [3; 50]%Z) (Sized []) Hstate Hinput) as [Hd _].
  exact (conj Hstate (conj Hinput Hd)).
Defined.

Lemma lowest_failing_unit_reported_witness :
  systems_ (addSystem narrow_wide narrow) !! 1 = Some wide /\
  unit_dynamics wide 7%Z 5000%Z 2%Z = Throws (other_exception 5000%Z) /\
  unit_dynamics narrow 7%Z 40%Z 3%Z = Throws (other_exception 40%Z) /\
  fst (dynamics (addSystem narrow_wide narrow) 7%Z
         (Sized [3; 5000; 40]%Z) (Sized [1; 2; 3]%Z))
  = Throws (other_exception 5000%Z) /\
  length (snd (dynamics (addSystem narrow_wide narrow) 7%Z
                 (Sized [3; 5000; 40]%Z) (Sized [1; 2; 3]%Z))) = 2.
Proof.
  assert (forall j s, j < 1 -> systems_ (addSystem narrow_wide narrow) !! j = Some s ->
            exists xj uj d,
              get (E := Z) (Sized [3; 5000; 40]%Z) j = Returns xj /\
              get (E := Z) (Sized [1; 2; 3]%Z) j = Returns uj /\
              unit_dynamics s 7%Z xj uj = Returns d) as Hbefore.
  { intros [| j] s Hj; [| lia]. simpl. intros [= <-].
    exists 3%Z, 1%Z, (-2)%Z. repeat split; reflexivity. }
  destruct (lowest_failing_unit_reported (addSystem narrow_wide narrow) 7%Z
              (Sized [3; 5000; 40]%Z) (Sized [1; 2; 3]%Z) 1 wide 5000%Z 2%Z
              (other_exception 5000%Z))
    as [Hdynamics _];
    [right; reflexivity | right; reflexivity | reflexivity | reflexivity | reflexivity |].
  destruct (Hdynamics Hbefore eq_refl) as (Hthrown & Hlength & _).
  exact (conj eq_refl (conj eq_refl (conj eq_refl (conj Hthrown Hlength)))).
Defined.

Lemma violation_only_from_slices_or_units_witness :
  fst (dynamics narrow_wide 7%Z (Unsized [3]%Z) (Sized [1; 2]%Z)) = Violation /\
  exists j system, systems_ narrow_wide !! j = Some system /\
    (get (E := Z) (Unsized [3]%Z) j = Violation \/
     get (E := Z) (Sized [1; 2]%Z) j = Violation \/
     exists x u, get (E := Z) (Unsized [3]%Z) j = Returns x /\
       get (E := Z) (Sized [1; 2]%Z) j = Returns u /\
       unit_dynamics system 7%Z x u = Violation).
Proof.
  assert (fst (dynamics narrow_wide 7%Z (Unsized [3]%Z) (Sized [1; 2]%Z)) = Violation)
    as Hviolation by reflexivity.
  destruct (violation_only_from_slices_or_units narrow_wide 7%Z
              (Unsized [3]%Z) (Sized [1; 2]%Z)) as (Hdynamics & _ & _).
  exact (conj Hviolation (Hdynamics Hviolation)).
Defined.

Lemma result_count_is_known_count_witness :
  fst (dynamics narrow_wide 7%Z (Sized [3; 50]%Z) (Unsized [1; 2; 9]%Z))
  = Returns (Sized [-2; -48]%Z) /\
  count (Sized [-2; -48]%Z) = count (Sized [3; 50]%Z).
Proof.
  assert (fst (dynamics narrow_wide 7%Z (Sized [3; 50]%Z) (Unsized [1; 2; 9]%Z))
          = Returns (Sized [-2; -48]%Z)) as Hreturns by reflexivity.
  destruct (result_count_is_known_count narrow_wide 7%Z
              (Sized [3; 50]%Z) (Unsized [1; 2; 9]%Z)) as [Hdynamics _].
  destruct (Hdynamics _ Hreturns) as (_ & Hstate & _).
  refine (conj Hreturns (Hstate _)). simpl. lia.
Defined.

Lemma addSystem_appends_unit_witness :
  length [3; 50]%Z = length (systems_ narrow_wide) /\
  length [1; 2]%Z = length (systems_ narrow_wide) /\
  dynamics (addSystem narrow_wide narrow) 7%Z (Sized ([3; 50] ++ [4])%Z)
    (Sized ([1; 2] ++ [3])%Z)
  = (xdot <- dynamics narrow_wide 7%Z (Sized [3; 50]%Z) (Sized [1; 2]%Z) ;;
     d <- invoke (dynamics_of narrow 7%Z 4%Z 3%Z) (unit_dynamics narrow 7%Z 4%Z 3%Z) ;;
     ret (Sized (slots xdot ++ [d]))).
Proof.
  destruct (addSystem_appends_unit narrow_wide narrow 7%Z [3; 50]%Z [1; 2]%Z 4%Z 3%Z
              eq_refl eq_refl) as [Hdynamics _].
  exact (conj eq_refl (conj eq_refl Hdynamics)).
Defined.

Lemma only_addSystem_modifies_witness :
  length (systems_ narrow_wide) < 5 /\
  dynamics_method 5 7%Z (Sized [3]%Z) (Sized [1; 2]%Z) narrow_wide
  = Some ((Throws (invalid_argument state_count_message), []), narrow_wide) /\
  output_method 5 7%Z (Sized [3; 5000]%Z) (Sized [1; 2]%Z) narrow_wide
  = Some (output narrow_wide 7%Z (Sized [3; 5000]%Z) (Sized [1; 2]%Z), narrow_wide) /\
  perform_all 5
    [call_dynamics 7%Z (Sized [3; 50]%Z) (Sized [1; 2]%Z);
     call_isTimeVarying; call_getNumOutputs;
     call_output 7%Z (Sized [3]%Z) (Sized [1; 2]%Z)] narrow_wide
  = Some (map (answer narrow_wide)
            [call_dynamics 7%Z (Sized [3; 50]%Z) (Sized [1; 2]%Z);
             call_isTimeVarying; call_getNumOutputs;
             call_output 7%Z (Sized [3]%Z) (Sized [1; 2]%Z)], narrow_wide) /\
  exists replies final,
    perform_all 5
      [call_isDirectFeedthrough; call_addSystem narrow;
       call_dynamics 7%Z (Sized [3; 50; 4]%Z) (Sized [1; 2; 3]%Z);
       call_addSystem wide] narrow_wide
    = Some (replies, final) /\
    systems_ final = [narrow; wide; narrow; wide].
Proof.
  assert (length (systems_ narrow_wide) < 5) as Hfuel by (simpl; lia).
  destruct (only_addSystem_modifies narrow_wide 5 Hfuel)
    as (Hevaluations & _ & _ & Hregistered & Hqueries).
  destruct (Hevaluations 7%Z (Sized [3]%Z) (Sized [1; 2]%Z)) as [Hdynamics _].
  destruct (Hevaluations 7%Z (Sized [3; 5000]%Z) (Sized [1; 2]%Z)) as [_ Houtput].
  destruct (Hregistered
              [call_isDirectFeedthrough; call_addSystem narrow;
               call_dynamics 7%Z (Sized [3; 50; 4]%Z) (Sized [1; 2; 3]%Z);
               call_addSystem wide])
    as (replies & final & Hrun & _ & Hfinal); [simpl; lia |].
  pose proof (Hqueries
                [call_dynamics 7%Z (Sized [3; 50]%Z) (Sized [1; 2]%Z);
                 call_isTimeVarying; call_getNumOutputs;
                 call_output 7%Z (Sized [3]%Z) (Sized [1; 2]%Z)] eq_refl) as Hsame.
  refine (conj Hfuel (conj Hdynamics (conj Houtput (conj Hsame _)))).
  exists replies, final. exact (conj Hrun Hfinal).
Defined.
